(** * FinSight: the conversational agent, the categorizer and the context summary

    A shallow embedding of [src/agent.py] and [src/categorizer.py], with the
    merchant names of [src/data_loader.py] and [get_agent] of [src/app.py].

    - [Py]          exceptions as values ([Ok] / [Raise]), Python strings.
    - [Agent]       [FinSightAgent.ask] with its rolling history window.
    - [Categorizer] [CATEGORY_MAP], [categorize] on a heap of DataFrames.
    - [Summary]     [build_context_summary], generic in the arithmetic of the
                    [amount] column, instantiated at binary64 (the [float]
                    column of the loader) and at integers.
    - [AgentSetup]  [build_agent], and conversations of several questions.
    - [Loader]      the cleaning of a merchant name.
    - [Tables]      [CATEGORY_COLORS] and [get_summary].
    - [App]         [get_agent]. *)

From Stdlib Require Import ZArith NArith List String Ascii Bool Lia.
From Stdlib Require Import Sorting.Permutation Sorting.Sorted.
From Stdlib Require PrimFloat Floats.
From stdpp Require Import base numbers option list sorting strings gmap.

Import ListNotations.
Local Open Scope Z_scope.

(** ** Python values shared by the three modules *)

Module Py.

(** An exception is identified by the name of its class. *)
Definition exn := string.

Inductive result (A : Type) : Type :=
| Ok (a : A)
| Raise (e : exn).
Arguments Ok {A} a.
Arguments Raise {A} e.

Definition bind {A B} (r : result A) (k : A -> result B) : result B :=
  match r with
  | Ok a => k a
  | Raise e => Raise e
  end.

(** A [str] whose characters are inspected is a sequence of Unicode code
    points.  Text that is only compared or looked up (labels, dictionary
    keys) is a [string], its bytes in UTF-8, whose order is the order of the
    code points. *)
Definition str := list N.

(** A literal of the source, read as code points. *)
Definition lit (s : string) : str :=
  map N_of_ascii (list_ascii_of_string s).

(** [Py_UNICODE_ISSPACE]: the code points [str.strip()] removes. *)
Definition isspace (c : N) : bool :=
  ((9 <=? c) && (c <=? 13) || (28 <=? c) && (c <=? 32)
   || (c =? 133) || (c =? 160) || (c =? 5760)
   || (8192 <=? c) && (c <=? 8202)
   || (c =? 8232) || (c =? 8233) || (c =? 8239) || (c =? 8287)
   || (c =? 12288))%N.

Fixpoint lstrip (s : str) : str :=
  match s with
  | [] => []
  | c :: r => if isspace c then lstrip r else s
  end.

Definition rstrip (s : str) : str := rev (lstrip (rev s)).

(** [s.strip()] *)
Definition strip (s : str) : str := rstrip (lstrip s).

(** Truth value of a sequence: non-empty. *)
Definition truthy {A} (l : list A) : bool :=
  match l with [] => false | _ :: _ => true end.

(** [l[start:]] for any integer [start], with Python's clamping. *)
Definition slice_from {A} (start : Z) (l : list A) : list A :=
  let n := Z.of_nat (length l) in
  let s := if start <? 0 then Z.max 0 (start + n) else Z.min start n in
  drop (Z.to_nat s) l.

End Py.

#[global] Instance result_bind : MBind Py.result := fun _ _ k r => Py.bind r k.
#[global] Instance result_ret : MRet Py.result := fun _ a => Py.Ok a.

(** ** agent.py: FinSightAgent *)

Module Agent.
Import Py.

Definition MEMORY_TURNS : Z := 10.

Inductive BaseMessage : Type :=
| HumanMessage (content : str)
| AIMessage (content : str).

(** The dictionary handed to [chain.invoke]. *)
Record request := Request { req_history : list BaseMessage; req_input : str }.

(** The chain is outside the repository.  Its reply may depend on the
    request and on every request it served before; it returns a string or
    raises.  It only reads the list it is given. *)
Definition Runnable := list request -> request -> result str.

Record FinSightAgent := Build_Agent {
  chain : Runnable;
  history : list BaseMessage;
  max_turns : Z
}.

(** [build_agent] leaves [history] and [max_turns] at their defaults. *)
Definition new_agent (c : Runnable) : FinSightAgent :=
  Build_Agent c [] MEMORY_TURNS.

Definition fallback : str := lit "Please ask me something about your finances!".

(** The rolling window of [ask]:
    [self.history[-max_messages:] if len(self.history) > max_messages else self.history] *)
Definition trimmed_history (self : FinSightAgent) : list BaseMessage :=
  let max_messages := max_turns self * 2 in
  if Z.of_nat (length (history self)) >? max_messages
  then slice_from (- max_messages) (history self)
  else history self.

(** [ask]: the value returned or raised, the agent afterwards, and the log
    of requests the completion service has received. *)
Definition ask (self : FinSightAgent) (served : list request) (question : str)
  : result str * FinSightAgent * list request :=
  if negb (truthy (strip question)) then (Ok fallback, self, served)
  else
    let req := Request (trimmed_history self) question in
    match chain self served req with
    | Raise e => (Raise e, self, served ++ [req])
    | Ok response =>
        (Ok response,
         Build_Agent (chain self)
           (history self ++ [HumanMessage question] ++ [AIMessage response])
           (max_turns self),
         served ++ [req])
    end.

(** [clear_history] *)
Definition clear_history (self : FinSightAgent) : FinSightAgent :=
  Build_Agent (chain self) [] (max_turns self).

(** A question/answer pair as it is stored. *)
Definition turn_messages (t : str * str) : list BaseMessage :=
  [HumanMessage (fst t); AIMessage (snd t)].

Definition messages_of_turns (ts : list (str * str)) : list BaseMessage :=
  concat (map turn_messages ts).

(** [session n a0 a served]: [a] and [served] are reached from the agent [a0]
    by [n] calls of [ask] that all returned a reply of the chain. *)
Inductive session (a0 : FinSightAgent) (s0 : list request)
  : nat -> FinSightAgent -> list request -> Prop :=
| session_start : session a0 s0 O a0 s0
| session_ask n a served q r a' served' :
    session a0 s0 n a served ->
    truthy (strip q) = true ->
    ask a served q = (Ok r, a', served') ->
    session a0 s0 (S n) a' served'.

(** A chain that always answers [ok]. *)
Definition always_ok : Runnable := fun _ _ => Ok (lit "ok").

End Agent.

(** ** categorizer.py *)

Module Categorizer.
Import Py.

(** A cell of a column of dtype [object], as [read_csv] gives for text: a
    string, a number, or a missing value ([None] or [nan]).  Every cell is
    hashable. *)
Inductive cell : Type :=
| Str (s : string)
| Num (z : Z)
| NaN.

Definition Series := list cell.

(** A DataFrame: its columns in order, each with its label.  Labels are
    taken to be distinct, as in every frame [load_data] returns. *)
Record DataFrame := Frame { columns : list (string * Series) }.

(** Maps every raw bank category to a FinSight display label. *)
Definition CATEGORY_MAP : gmap string string :=
  list_to_map [
    ("food_dining",    "Food & Groceries");
    ("grocery_pos",    "Food & Groceries");
    ("grocery_net",    "Food & Groceries");
    ("shopping_pos",   "Shopping");
    ("shopping_net",   "Shopping");
    ("gas_transport",  "Transport & Travel");
    ("travel",         "Transport & Travel");
    ("entertainment",  "Entertainment");
    ("health_fitness", "Health & Wellness");
    ("personal_care",  "Health & Wellness");
    ("home",           "Home & Family");
    ("kids_pets",      "Home & Family");
    ("misc_pos",       "Miscellaneous");
    ("misc_net",       "Miscellaneous")
  ]%string.

Definition CATEGORY_ORDER : list string :=
  [ "Food & Groceries"; "Shopping"; "Transport & Travel"; "Entertainment";
    "Health & Wellness"; "Home & Family"; "Miscellaneous" ]%string.

(** ["name" in df.columns] *)
Definition has_column (name : string) (fr : DataFrame) : bool :=
  existsb (String.eqb name) (map fst (columns fr)).

(** [df[name]] *)
Fixpoint lookup_column (name : string) (cols : list (string * Series)) : option Series :=
  match cols with
  | [] => None
  | (n, c) :: rest => if String.eqb n name then Some c else lookup_column name rest
  end.

Definition getitem (fr : DataFrame) (name : string) : result Series :=
  match lookup_column name (columns fr) with
  | Some c => Ok c
  | None => Raise "KeyError"
  end.

(** [df[name] = col]: an existing column is replaced where it stands, a new
    label is added after the last column. *)
Fixpoint assign_column (name : string) (col : Series) (cols : list (string * Series))
  : list (string * Series) :=
  match cols with
  | [] => [(name, col)]
  | (n, c) :: rest =>
      if String.eqb n name then (n, col) :: rest
      else (n, c) :: assign_column name col rest
  end.

Definition setitem (name : string) (col : Series) (fr : DataFrame) : DataFrame :=
  Frame (assign_column name col (columns fr)).

(** [Series.map(d)] for a dictionary [d] with string keys: a cell that is not
    a key of [d] becomes a missing value. *)
Definition series_map (d : gmap string string) (s : Series) : Series :=
  map (fun c => match c with
                | Str k => match d !! k with Some v => Str v | None => NaN end
                | Num _ | NaN => NaN
                end) s.

(** [Series.fillna(value)] *)
Definition fillna (value : cell) (s : Series) : Series :=
  map (fun c => match c with NaN => value | _ => c end) s.

(** DataFrames are objects: the heap maps a reference to the frame it holds. *)
Definition loc := positive.
Abbreviation heap := (gmap loc DataFrame).

(** A name is always bound to a live object; the [None] case does not arise. *)
Definition deref (h : heap) (l : loc) : result DataFrame :=
  match h !! l with
  | Some fr => Ok fr
  | None => Raise "NameError"
  end.

(** [df.copy()]: a new object with the same columns. *)
Definition copy (h : heap) (fr : DataFrame) : heap * loc :=
  let l := fresh (dom h) in (<[l := fr]> h, l).

Definition _validate_input (fr : DataFrame) : result unit :=
  if negb (has_column "category" fr) then Raise "ValueError" else Ok tt.

(** [categorize(df)]: the heap afterwards and the reference returned. *)
Definition categorize (h : heap) (df : loc) : result (heap * loc) :=
  fr ← deref h df;
  _ ← _validate_input fr;
  let '(h1, df1) := copy h fr in
  fr1 ← deref h1 df1;
  raw ← getitem fr1 "category";
  let mapped := fillna (Str "Miscellaneous") (series_map CATEGORY_MAP raw) in
  Ok (<[df1 := setitem "spending_category" mapped fr1]> h1, df1).

(** The result adds one column and changes nothing else. *)
Definition adds_one_column (fr fr' : DataFrame) : Prop :=
  exists col, columns fr' = columns fr ++ [("spending_category"%string, col)].

Local Open Scope string_scope.

(** A frame as [load_data] returns it, cut to two columns and three rows. *)
Definition loaded_frame : DataFrame :=
  Frame [("merchant", [Str "Kirlin and Sons"; Str "Rau-Robel"; Str "Bins-Rice"]);
         ("category", [Str "grocery_pos"; Str "unknown_x"; NaN])].

(** A frame that was categorized before. *)
Definition categorized_frame : DataFrame :=
  Frame [("category", [Str "home"]); ("spending_category", [Str "Shopping"])].

End Categorizer.

(** ** agent.py: build_context_summary *)

Module Summary.
Import Py.

(** The order pandas sorts labels and values by. *)
Class Ord (K : Type) := less : K -> K -> bool.

(** The arithmetic of the [amount] column. *)
Class Arith (A : Type) := {
  zero : A;
  add : A -> A -> A;
  mul : A -> A -> A;
  div : A -> A -> A;
  of_int : Z -> A;
  arith_ord :: Ord A
}.

(** [sort_values(..., ascending=False)] with the default [kind="quicksort"]:
    pandas promises a descending order and leaves the order of equal values
    to the sorting algorithm, so the sort is a parameter of the summary. *)
Class Sorter (A : Type) := sort_values_desc : forall R : Type, (R -> A) -> list R -> list R.
Arguments sort_values_desc {A _ R} key l.

(** The amounts that compare with the others.  The missing value of a float
    column (NaN) does not: it is below nothing and nothing is below it. *)
Class Comparable (A : Type) := comparable : A -> bool.

(** The number an amount denotes, as a multiple of the smallest amount of
    its type; [None] for an amount that denotes no number. *)
Class Valued (A : Type) := value : A -> option Z.

(** Python compares strings code point by code point. *)
#[export] Instance string_ord : Ord string := String.ltb.
#[export] Instance Z_ord : Ord Z := Z.ltb.

(** Tuples of labels are ordered lexicographically. *)
#[export] Instance pair_ord {K1 K2} `{Ord K1, Ord K2} : Ord (K1 * K2) :=
  fun a b => less (fst a) (fst b) || (negb (less (fst b) (fst a)) && less (snd a) (snd b)).

(** A stable insertion sort, descending: an element goes in front of the
    first one that is not greater. *)
Fixpoint insert_desc {A R} `{Ord A} (key : R -> A) (x : R) (l : list R) : list R :=
  match l with
  | [] => [x]
  | y :: r => if less (key x) (key y) then y :: insert_desc key x r else x :: l
  end.

Definition stable_sort_desc {A R} `{Ord A} (key : R -> A) (l : list R) : list R :=
  foldr (insert_desc key) [] l.

(** A stable insertion sort, ascending ([sort_values] on several columns). *)
Fixpoint insert_asc {K R} `{Ord K} (key : R -> K) (x : R) (l : list R) : list R :=
  match l with
  | [] => [x]
  | y :: r => if less (key y) (key x) then y :: insert_asc key x r else x :: l
  end.

Definition stable_sort_asc {K R} `{Ord K} (key : R -> K) (l : list R) : list R :=
  foldr (insert_asc key) [] l.

(** The labels of the groups: each once, ascending ([groupby] sorts its keys). *)
Fixpoint insert_key {K} `{Ord K} (k : K) (ks : list K) : list K :=
  match ks with
  | [] => [k]
  | k' :: r =>
      if less k k' then k :: ks
      else if less k' k then k' :: insert_key k r
      else ks
  end.

Definition group_keys {K} `{Ord K} (ks : list K) : list K := foldr insert_key [] ks.

(** [idxmax]: the label of the first occurrence of the maximum. *)
Definition first_max {K A} `{Ord A} (p : K * A) (r : list (K * A)) : K * A :=
  fold_left (fun best x => if less (snd best) (snd x) then x else best) r p.

Definition idxmax {K A} `{Ord A} (s : list (K * A)) : result K :=
  match s with
  | [] => Raise "ValueError"
  | p :: r => Ok (fst (first_max p r))
  end.

(** Timestamps are integers; [None] is [NaT]. *)
Definition ts_min (l : list Z) : option Z :=
  match l with [] => None | x :: r => Some (fold_left Z.min r x) end.

Definition ts_max (l : list Z) : option Z :=
  match l with [] => None | x :: r => Some (fold_left Z.max r x) end.

(** [t.strftime(...)]: [NaT] does not support it.  The text of a date is
    represented by the timestamp it prints. *)
Definition strftime (t : option Z) : result Z :=
  match t with
  | None => Raise "ValueError"
  | Some t => Ok t
  end.

(** [a / b] on integers. *)
Definition true_div {A} `{Arith A} (a b : Z) : result A :=
  if b =? 0 then Raise "ZeroDivisionError" else Ok (div (of_int a) (of_int b)).

(** [df.tail(n)] *)
Definition tail {R} (n : nat) (l : list R) : list R := drop (length l - n) l.

Section Frame.
Context {A : Type} {HA : Arith A} {HS : Sorter A}.

(** A row of the loaded and categorized frame: the columns the summary
    reads, none of them missing. *)
Record row := Row {
  amount : A;
  datetime : Z;
  is_fraud : Z;
  spending_category : string;
  merchant : string;
  year : Z;
  month : Z;
  month_name : string;
  day_of_week : string;
  hour : Z
}.

(** [Series.sum()], from the left.  numpy adds fewer than eight values in
    this order and longer columns pairwise; the grouped sum of pandas is a
    compensated one.  All of them give this value when no partial sum is
    rounded. *)
Definition series_sum (xs : list A) : A := fold_left add xs zero.

(** [Series.mean()] *)
Definition series_mean (xs : list A) : A :=
  div (series_sum xs) (of_int (Z.of_nat (length xs))).

(** [Series.max()]; [None] is the missing value of an empty column. *)
Definition series_max (xs : list A) : option A :=
  match xs with
  | [] => None
  | x :: r => Some (fold_left (fun m y => if less m y then y else m) r x)
  end.

(** [df.groupby(key)]: the groups by ascending label, each with its rows in
    the order of the frame. *)
Definition groupby {K} `{Ord K, EqDecision K} (key : row -> K) (df : list row)
  : list (K * list row) :=
  map (fun k => (k, filter (fun r => key r = k) df)) (group_keys (map key df)).

(** [df.groupby(key)["amount"].sum()] *)
Definition sum_by {K} `{Ord K, EqDecision K} (key : row -> K) (df : list row)
  : list (K * A) :=
  map (fun g => (fst g, series_sum (map amount (snd g)))) (groupby key df).

(** [df.groupby(key)["amount"].agg(total="sum", count="count")] *)
Definition sum_count_by {K} `{Ord K, EqDecision K} (key : row -> K) (df : list row)
  : list (K * A * Z) :=
  map (fun g => (fst g, series_sum (map amount (snd g)), Z.of_nat (length (snd g))))
      (groupby key df).

(** The values the f-strings of the summary print, section by section. *)
Record summary := Summary {
  date_min : Z;
  date_max : Z;
  total_spend : A;
  total_txns : Z;
  avg_txn : A;
  max_txn : option A;
  fraud_count : Z;
  fraud_pct : A;
  (** category, total, percentage of the total spend, count *)
  cat_lines : list (string * A * A * Z);
  (** rank from one, merchant, spend *)
  merch_lines : list (Z * string * A);
  (** month name, amount *)
  monthly_lines : list (string * A);
  peak_day : string;
  peak_hour : Z
}.

Definition cat_total (l : string * A * A * Z) : A := snd (fst (fst l)).
Definition cat_name (l : string * A * A * Z) : string := fst (fst (fst l)).
Definition merch_name (l : Z * string * A) : string := snd (fst l).
Definition merch_spend (l : Z * string * A) : A := snd l.

Definition build_context_summary (df : list row) : result summary :=
  let total_spend := series_sum (map amount df) in
  let total_txns := Z.of_nat (length df) in
  date_min ← strftime (ts_min (map datetime df));
  date_max ← strftime (ts_max (map datetime df));
  let avg_txn := series_mean (map amount df) in
  let max_txn := series_max (map amount df) in
  let fraud_count := fold_left Z.add (map is_fraud df) 0 in
  fraud_pct ← true_div (100 * fraud_count) total_txns;
  let cat_summary :=
    sort_values_desc (fun r => snd (fst r)) (sum_count_by spending_category df) in
  let cat_lines :=
    map (fun r => (fst (fst r), snd (fst r),
                   div (mul (of_int 100) (snd (fst r))) total_spend, snd r))
        cat_summary in
  let top_merchants := take 10 (sort_values_desc snd (sum_by merchant df)) in
  let merch_lines :=
    imap (fun i m => (Z.of_nat i + 1, fst m, snd m)) top_merchants in
  let monthly :=
    tail 6 (stable_sort_asc (fun m => (fst (fst (fst m)), snd (fst (fst m))))
              (sum_by (fun r => (year r, month r, month_name r)) df)) in
  let monthly_lines := map (fun m => (snd (fst m), snd m)) monthly in
  peak_day ← idxmax (sum_by day_of_week df);
  peak_hour ← idxmax (sum_by hour df);
  Ok (Summary date_min date_max total_spend total_txns avg_txn max_txn
        fraud_count fraud_pct cat_lines merch_lines monthly_lines
        peak_day peak_hour).

End Frame.

Arguments row A : clear implicits.
Arguments summary A : clear implicits.

(** *** The arithmetic of the program: binary64 *)

Fixpoint float_of_pos (p : positive) : PrimFloat.float :=
  match p with
  | xH => PrimFloat.one
  | xO q => PrimFloat.mul PrimFloat.two (float_of_pos q)
  | xI q => PrimFloat.add (PrimFloat.mul PrimFloat.two (float_of_pos q)) PrimFloat.one
  end.

(** [float(z)], exact below 2^53. *)
Definition float_of_int (z : Z) : PrimFloat.float :=
  match z with
  | Z0 => PrimFloat.zero
  | Zpos p => float_of_pos p
  | Zneg p => PrimFloat.opp (float_of_pos p)
  end.

#[export] Instance float_ord : Ord PrimFloat.float := PrimFloat.ltb.

#[export] Instance float_arith : Arith PrimFloat.float := {
  zero := PrimFloat.zero;
  add := PrimFloat.add;
  mul := PrimFloat.mul;
  div := PrimFloat.div;
  of_int := float_of_int
}.

(** Every binary64 value but NaN equals itself. *)
#[export] Instance float_comparable : Comparable PrimFloat.float :=
  fun f => PrimFloat.eqb f f.

Definition signed (s : bool) (m : positive) : Z := if s then Zneg m else Zpos m.

(** The number a binary64 value denotes, in units of 2^-1074, the smallest
    positive one: the mantissa shifted by the exponent.  NaN and the
    infinities denote none, and of the two zeros the positive one stands for
    the number 0, so that a number has one float. *)
Definition spec_value (x : SpecFloat.spec_float) : option Z :=
  match x with
  | SpecFloat.S754_zero false => Some 0
  | SpecFloat.S754_finite s m e => Some (signed s m * 2 ^ (e + 1074))
  | _ => None
  end.

Definition float_value (f : PrimFloat.float) : option Z :=
  spec_value (FloatOps.Prim2SF f).

#[export] Instance float_valued : Valued PrimFloat.float := float_value.

(** *** Exact amounts: integers (cents), with the quotient rounded down *)

#[export] Instance Z_arith : Arith Z := {
  zero := 0;
  add := Z.add;
  mul := Z.mul;
  div := Z.div;
  of_int := fun z => z
}.

#[export] Instance Z_comparable : Comparable Z := fun _ => true.

#[export] Instance Z_valued : Valued Z := Some.

(** A sort that keeps rows of equal value in their order. *)
Definition stable_sorter (A : Type) `{Ord A} : Sorter A :=
  fun R key l => stable_sort_desc key l.

(** A sort that reverses rows of equal value: descending all the same. *)
Definition reversing_sorter (A : Type) `{Ord A} : Sorter A :=
  fun R key l => rev (stable_sort_asc key l).

(** The stable sort of pandas on a column with missing values: they go last
    ([na_position="last"]), the others are sorted. *)
Definition na_last_sorter (A : Type) `{Ord A, Comparable A} : Sorter A :=
  fun R key l =>
    stable_sort_desc key (filter (fun r => comparable (key r) = true) l)
    ++ filter (fun r => ~ comparable (key r) = true) l.

(** *** Sums without rounding *)

(** The number of an amount, 0 when it denotes none. *)
Definition number {A} `{Valued A} (a : A) : Z := default 0 (value a).

(** [a + b] is the sum of the two numbers: the addition did not round. *)
Definition exact_add {A} `{Arith A, Valued A} (a b : A) : bool :=
  match value a, value b, value (add a b) with
  | Some x, Some y, Some z => z =? x + y
  | _, _, _ => false
  end.

(** No step of the sum of [l] onto [acc], from the left, rounds. *)
Fixpoint exact_from {A} `{Arith A, Valued A} (acc : A) (l : list A) : bool :=
  match l with
  | [] => true
  | x :: r => exact_add acc x && exact_from (add acc x) r
  end.

(** However many of the amounts are added, and in whichever order, no
    partial sum is rounded. *)
Definition adds_exactly {A} `{Arith A, Valued A} (l : list A) : Prop :=
  forall l', l' ⊆+ l -> exact_from zero l' = true.

(** The selections of the elements of a list, and their orderings. *)
Fixpoint sublists {X} (l : list X) : list (list X) :=
  match l with
  | [] => [[]]
  | x :: r => map (cons x) (sublists r) ++ sublists r
  end.

Definition orderings {X} (l : list X) : list (list X) :=
  concat (map permutations (sublists l)).

(** [adds_exactly], checked ordering by ordering. *)
Definition adds_exactly_check {A} `{Arith A, Valued A} (l : list A) : bool :=
  forallb (exact_from zero) (orderings l).

(** *** Laws the properties below assume of the parameters *)

(** A strict total order. *)
Class StrictTotal (K : Type) `{Ord K} : Prop := {
  less_irrefl a : less a a = false;
  less_trans a b c : less a b = true -> less b c = true -> less a c = true;
  less_connex a b : less a b = false -> less b a = false -> a = b
}.

(** The order of the amounts: a strict weak order on those that compare. *)
Class WeakOrder (A : Type) `{Ord A, Comparable A} : Prop := {
  weak_comparable a b : less a b = true -> comparable a = true /\ comparable b = true;
  weak_irrefl a : less a a = false;
  weak_trans a b c : less a b = true -> less b c = true -> less a c = true;
  weak_neg_trans a b c :
    comparable b = true -> less a b = false -> less b c = false -> less a c = false
}.

(** The amounts that denote a number: zero is one of them, a number has one
    amount, and two of them neither of which is below the other are equal. *)
Class ExactValue (A : Type) `{Arith A, Comparable A, Valued A} : Prop := {
  value_zero : value zero = Some 0;
  value_inj a b z : value a = Some z -> value b = Some z -> a = b;
  value_comparable a z : value a = Some z -> comparable a = true;
  value_connex a b x y :
    value a = Some x -> value b = Some y ->
    less a b = false -> less b a = false -> a = b;
  value_order :: WeakOrder A
}.

(** What [sort_values] promises: the same rows, in descending order. *)
Class SorterSpec (A : Type) `{Ord A, Sorter A} : Prop := {
  sort_perm (R : Type) (key : R -> A) (l : list R) :
    Permutation (sort_values_desc key l) l;
  sort_desc (R : Type) (key : R -> A) (l : list R) :
    StronglySorted (fun a b => less (key a) (key b) = false) (sort_values_desc key l)
}.

(** Neither value is below the other. *)
Definition tie {A} `{Ord A} (a b : A) : bool := negb (less a b) && negb (less b a).

(** A stable sort ([kind="stable"]) keeps rows of equal value in their order,
    on a column without missing values. *)
Class StableSorter (A : Type) `{Ord A, Comparable A, Sorter A} : Prop :=
  sort_stable (R : Type) (key : R -> A) (l : list R) (a : A) :
    comparable a = true ->
    Forall (fun r => comparable (key r) = true) l ->
    filter (fun r => tie (key r) a = true) (sort_values_desc key l)
    = filter (fun r => tie (key r) a = true) l.

(** The order the specification asks of the category and merchant rows:
    descending total, ascending name among equal totals. *)
Definition total_desc_name_asc {A R} `{Ord A} (total : R -> A) (name : R -> string)
    (a b : R) : Prop :=
  less (total b) (total a) = true \/
  (total a = total b /\ less (name a) (name b) = true).

(** The aggregated amount of the rows with label [k]. *)
Definition group_total {A K} `{Arith A} `{EqDecision K}
    (key : row A -> K) (df : list (row A)) (k : K) : A :=
  series_sum (map amount (filter (fun r => key r = k) df)).

(** The week as the heatmap of [visualizations.py] lists it. *)
Definition day_order : list string :=
  ["Monday"; "Tuesday"; "Wednesday"; "Thursday"; "Friday"; "Saturday"; "Sunday"]%string.

(** The place of a day in [day_order]. *)
Fixpoint week_index_in (days : list string) (d : string) : nat :=
  match days with
  | [] => O
  | d' :: rest => if String.eqb d' d then O else S (week_index_in rest d)
  end.

Definition week_index : string -> nat := week_index_in day_order.

(** Strictly ascending labels. *)
Definition ascending {K} `{Ord K} : list K -> Prop :=
  StronglySorted (fun a b => less a b = true).

(** *** Frames the properties below are tried on *)

Import PrimFloat.
Local Open Scope string_scope.

(** Three rows with binary64 amounts.  Each group of the frame is one row or
    the two rows of amount 1, so every grouped sum is exact. *)
Definition float_frame : list (row PrimFloat.float) :=
  [ Row 1e16%float 1546336800 0 "Shopping" "Kirlin and Sons" 2019 1 "Jan 2019" "Tuesday" 10;
    Row 1%float 1549018800 0 "Food & Groceries" "Rau-Robel" 2019 2 "Feb 2019" "Friday" 11;
    Row 1%float 1549105200 0 "Food & Groceries" "Rau-Robel" 2019 2 "Feb 2019" "Saturday" 11 ].

(** The same rows, the large amount last. *)
Definition float_frame_reordered : list (row PrimFloat.float) :=
  [ Row 1%float 1549018800 0 "Food & Groceries" "Rau-Robel" 2019 2 "Feb 2019" "Friday" 11;
    Row 1%float 1549105200 0 "Food & Groceries" "Rau-Robel" 2019 2 "Feb 2019" "Saturday" 11;
    Row 1e16%float 1546336800 0 "Shopping" "Kirlin and Sons" 2019 1 "Jan 2019" "Tuesday" 10 ].

(** Three rows with binary64 amounts that add without rounding; two
    categories and two merchants tie. *)
Definition exact_frame : list (row PrimFloat.float) :=
  [ Row 100.5%float 1546858800 0 "Food & Groceries" "Kirlin and Sons" 2019 1 "Jan 2019" "Monday" 11;
    Row 50.25%float 1547197200 1 "Shopping" "Rau-Robel" 2019 1 "Jan 2019" "Friday" 9;
    Row 50.25%float 1549011600 0 "Miscellaneous" "Bins-Rice" 2019 2 "Feb 2019" "Friday" 9 ].

(** The same rows in another order. *)
Definition exact_frame_reordered : list (row PrimFloat.float) :=
  [ Row 50.25%float 1547197200 1 "Shopping" "Rau-Robel" 2019 1 "Jan 2019" "Friday" 9;
    Row 100.5%float 1546858800 0 "Food & Groceries" "Kirlin and Sons" 2019 1 "Jan 2019" "Monday" 11;
    Row 50.25%float 1549011600 0 "Miscellaneous" "Bins-Rice" 2019 2 "Feb 2019" "Friday" 9 ].

(** Two days with the same amount. *)
Definition two_day_frame : list (row PrimFloat.float) :=
  [ Row 10%float 1546858800 0 "Shopping" "Kirlin and Sons" 2019 1 "Jan 2019" "Monday" 11;
    Row 10%float 1547204400 0 "Shopping" "Rau-Robel" 2019 1 "Jan 2019" "Friday" 11 ].

(** Amounts in cents; two categories and two hours tie. *)
Definition cents_frame : list (row Z) :=
  [ Row 10000 1546858800 0 "Shopping" "Kirlin and Sons" 2019 1 "Jan 2019" "Monday" 11;
    Row 5000 1547197200 1 "Miscellaneous" "Rau-Robel" 2019 1 "Jan 2019" "Friday" 9;
    Row 5000 1549011600 0 "Miscellaneous" "Bins-Rice" 2019 2 "Feb 2019" "Friday" 9 ].

End Summary.

(** ** agent.py: build_agent, and a conversation *)

Module AgentSetup.
Import Py Agent.
Local Open Scope string_scope.

Definition GROQ_MODEL : string := "llama-3.3-70b-versatile".

Definition nl : string := String "010"%char EmptyString.

(** The system prompt, with the data summary embedded. *)
Definition system_prompt (context_summary : string) : string :=
  "You are FinSight, a sharp and friendly personal finance analyst." ++ nl ++
  "You have been given a complete summary of the user's transaction data below." ++ nl ++
  "Use ONLY this data when answering factual questions. Never guess or make up numbers." ++ nl ++ nl ++
  "When explaining trends, speak like a financial storyteller: " ++
  "be concise, insightful, and occasionally point out surprising patterns." ++ nl ++
  "If the user asks something the data cannot answer, say so honestly." ++ nl ++ nl ++
  "--- DATA SUMMARY ---" ++ nl ++ context_summary ++ nl ++ "--- END OF DATA SUMMARY ---".

(** [build_agent(context_summary)].  [environ] is the environment [os.getenv]
    reads.  [compile model api_key prompt] stands for the calls into the two
    libraries outside the repository: [ChatGroq(...)],
    [ChatPromptTemplate.from_messages(...)] and the pipe
    [prompt | llm | StrOutputParser()].  They return the runnable or raise:
    [from_messages] reads the system prompt, data summary included, as a
    template, and a brace without its partner in it is a [ValueError]. *)
Definition build_agent (environ : gmap string string)
    (compile : string -> string -> string -> result Runnable) (context_summary : string)
  : result FinSightAgent :=
  match environ !! "GROQ_API_KEY" with
  | None | Some EmptyString => Raise "ValueError"
  | Some api_key =>
      chain ← compile GROQ_MODEL api_key (system_prompt context_summary);
      Ok (Build_Agent chain [] MEMORY_TURNS)
  end.

(** Questions put to one agent one after the other, whatever each call
    returned or raised: the agent and the requests served at the end. *)
Fixpoint ask_each (self : FinSightAgent) (served : list request) (questions : list str)
  : FinSightAgent * list request :=
  match questions with
  | [] => (self, served)
  | q :: rest =>
      let '(_, self', served') := ask self served q in
      ask_each self' served' rest
  end.

End AgentSetup.

(** ** data_loader.py: the merchant names *)

Module Loader.
Import Py.

(** [s.startswith(prefix)] *)
Fixpoint startswith (s prefix : str) {struct prefix} : bool :=
  match prefix, s with
  | [], _ => true
  | _ :: _, [] => false
  | p :: ps, c :: cs => (p =? c)%N && startswith cs ps
  end.

(** [s.removeprefix(prefix)] *)
Definition removeprefix (s prefix : str) : str :=
  if startswith s prefix then drop (length prefix) s else s.

(** One cell of [df["merchant"].str.removeprefix("fraud_").str.strip()]. *)
Definition clean_merchant (raw : str) : str :=
  strip (removeprefix raw (lit "fraud_")).

End Loader.

(** ** categorizer.py: the colours and the summary table *)

Module Tables.
Import Py Summary.
Local Open Scope string_scope.

(** One hex colour per category. *)
Definition CATEGORY_COLORS : gmap string string :=
  list_to_map [
    ("Food & Groceries",   "#2ecc71");
    ("Shopping",           "#3498db");
    ("Transport & Travel", "#e67e22");
    ("Entertainment",      "#9b59b6");
    ("Health & Wellness",  "#e74c3c");
    ("Home & Family",      "#1abc9c");
    ("Miscellaneous",      "#95a5a6")
  ].

(** [Series.round(2)] *)
Class Rounding (A : Type) := round2 : A -> A.

(** Whole cents are their own rounding. *)
#[export] Instance Z_rounding : Rounding Z := fun z => z.

(** [get_summary(df)]: category, total spent, transaction count, average
    transaction; sorted by the total before the two money columns are
    rounded. *)
Definition get_summary {A} {HA : Arith A} {HS : Sorter A} {HR : Rounding A}
    (df : list (row A)) : list (string * A * Z * A) :=
  let summary :=
    sort_values_desc (fun r => snd (fst (fst r)))
      (map (fun g => (fst g,
                      series_sum (map amount (snd g)),
                      Z.of_nat (length (snd g)),
                      series_mean (map amount (snd g))))
           (groupby spending_category df)) in
  map (fun r => (fst (fst (fst r)), round2 (snd (fst (fst r))), snd (fst r), round2 (snd r)))
      summary.

Definition summary_category {A} (r : string * A * Z * A) : string := fst (fst (fst r)).
Definition summary_count {A} (r : string * A * Z * A) : Z := snd (fst r).

(** [sort_values] reorders the rows by the values of the one column it is
    given: what else a row holds has no part in the order. *)
Class SorterNatural (A : Type) `{Ord A, Sorter A} : Prop :=
  sort_natural (R R' : Type) (f : R -> R') (key : R' -> A) (l : list R) :
    sort_values_desc key (map f l) = map f (sort_values_desc (fun r => key (f r)) l).

End Tables.

(** ** app.py: get_agent *)

Module App.
Import Py Agent AgentSetup Summary.

(** The body of [get_agent], on the frame [get_data] returns:
    [build_agent(build_context_summary(df))].  [render] is the text of the
    summary, the f-string of [build_context_summary]. *)
Definition get_agent {A} {HA : Arith A} {HS : Sorter A} (render : summary A -> string)
    (environ : gmap string string) (compile : string -> string -> string -> result Runnable)
    (df : list (row A)) : result FinSightAgent :=
  context ← build_context_summary df;
  build_agent environ compile (render context).

End App.


(** * Properties *)

(** ** FinSightAgent.ask *)

Section AskProperties.
Import Py Agent.

Lemma lstrip_blank (s : str) : forallb isspace s = true -> lstrip s = [].
Proof.
  induction s as [|c s IH]; simpl; [done|].
  intros [Hc Hs]%andb_prop. rewrite Hc. auto.
Qed.

Lemma strip_blank (s : str) : forallb isspace s = true -> strip s = [].
Proof. intros H. unfold strip, rstrip. by rewrite (lstrip_blank s H). Qed.

Lemma lstrip_nil_blank (s : str) : lstrip s = [] -> forallb isspace s = true.
Proof.
  induction s as [|c s IH]; simpl; [done|].
  destruct (isspace c); [auto | discriminate].
Qed.

(** Only blank questions take the short-circuit of [ask]. *)
Lemma strip_nil_iff (s : str) : strip s = [] <-> forallb isspace s = true.
Proof.
  split; [|apply strip_blank].
  unfold strip, rstrip. intros H.
  assert (Hr : lstrip (rev (lstrip s)) = []).
  { apply (f_equal (@rev N)) in H. by rewrite rev_involutive in H. }
  apply lstrip_nil_blank in Hr.
  assert (Hl : lstrip s = []).
  { clear H. induction s as [|c s IH]; simpl in *; [done|].
    destruct (isspace c) eqn:Hc; [by apply IH|].
    simpl in Hr. rewrite forallb_app in Hr. simpl in Hr. rewrite Hc in Hr.
    by rewrite andb_false_r in Hr. }
  by apply lstrip_nil_blank.
Qed.

(** C2. A question that is empty or all whitespace returns the fixed fallback
    string; the completion service receives no request and the agent, with its
    history, is the one before the call. *)
Theorem ask_blank_is_noop (self : FinSightAgent) (served : list request) (question : str) :
  forallb isspace question = true ->
  ask self served question = (Ok fallback, self, served).
Proof.
  intros Hb. unfold ask. by rewrite (strip_blank _ Hb).
Qed.

(** C1. [ask] raises exactly when the chain raised on the one request it was
    sent, and then the history is the one before the call.  When the chain
    replied, the history grew by the question and the reply, in this order,
    and the request was built from the history before the call. *)
Theorem ask_atomic (self : FinSightAgent) (served : list request) (question : str) :
  let req := Request (trimmed_history self) question in
  let '(res, self', served') := ask self served question in
  match res with
  | Raise e =>
      truthy (strip question) = true /\ chain self served req = Raise e /\
      history self' = history self /\ self' = self /\ served' = served ++ [req]
  | Ok response =>
      if truthy (strip question)
      then chain self served req = Ok response /\
           history self' = history self ++ [HumanMessage question; AIMessage response] /\
           served' = served ++ [req] /\
           req_history req `suffix_of` history self
      else response = fallback /\ history self' = history self /\ served' = served
  end.
Proof.
  unfold ask. destruct (truthy (strip question)) eqn:Hq; simpl; [|done].
  destruct (chain self served _) eqn:Hc; simpl; [|done].
  repeat split; try done.
  unfold trimmed_history, slice_from. case_match; [|done].
  apply suffix_drop.
Qed.

Lemma messages_of_turns_app (ts us : list (str * str)) :
  messages_of_turns (ts ++ us) = messages_of_turns ts ++ messages_of_turns us.
Proof. unfold messages_of_turns. by rewrite map_app, concat_app. Qed.

Lemma length_messages_of_turns (ts : list (str * str)) :
  length (messages_of_turns ts) = (2 * length ts)%nat.
Proof.
  induction ts as [|t ts IH]; [done|].
  change (messages_of_turns (t :: ts)) with (turn_messages t ++ messages_of_turns ts).
  rewrite length_app, IH. simpl. lia.
Qed.

Lemma drop_messages_of_turns (k : nat) (ts : list (str * str)) :
  drop (2 * k) (messages_of_turns ts) = messages_of_turns (drop k ts).
Proof.
  revert ts. induction k as [|k IH]; intros ts; [done|].
  destruct ts as [|t ts]; [done|].
  replace (2 * S k)%nat with (S (S (2 * k))) by lia. simpl. apply IH.
Qed.

(** The stored history of a session that began empty is the sequence of its
    turns; [chain] and [max_turns] never change. *)
Lemma session_history a0 s0 n a served :
  history a0 = [] ->
  session a0 s0 n a served ->
  exists ts, length ts = n /\ history a = messages_of_turns ts /\
             max_turns a = max_turns a0 /\ chain a = chain a0.
Proof.
  intros H0. induction 1 as [|n a served q r a' served' _ IH Hq Hask].
  - exists []. by rewrite H0.
  - destruct IH as (ts & Hlen & Hh & Hm & Hc).
    unfold ask in Hask. rewrite Hq in Hask. simpl in Hask.
    destruct (chain a served _) eqn:E; [|discriminate].
    injection Hask as -> <- <-.
    exists (ts ++ [(q, r)]). simpl. rewrite length_app, Hlen, Hh, messages_of_turns_app.
    simpl. repeat split; try done. lia.
Qed.

(** The window for a positive [max_turns]: the last [max_turns] turns. *)
Lemma trimmed_history_turns (self : FinSightAgent) (ts : list (str * str)) :
  0 < max_turns self ->
  history self = messages_of_turns ts ->
  trimmed_history self =
    messages_of_turns (drop (length ts - Z.to_nat (max_turns self)) ts).
Proof.
  intros Hm Hh. unfold trimmed_history, slice_from.
  rewrite Hh, length_messages_of_turns.
  destruct (Z.gtb_spec (Z.of_nat (2 * length ts)) (max_turns self * 2)) as [Hgt|Hle].
  - destruct (Z.ltb_spec (- (max_turns self * 2)) 0); [|lia].
    rewrite <- drop_messages_of_turns. f_equal. lia.
  - replace (length ts - Z.to_nat (max_turns self))%nat with 0%nat by lia. done.
Qed.

(** For a positive [max_turns], after [n] answered questions the next request
    carries the last [min n max_turns] turns, oldest first, and the history
    still holds all [n] turns, before and after the call. *)
Lemma ask_window_positive a0 s0 n a served question :
  0 < max_turns a0 ->
  history a0 = [] ->
  session a0 s0 n a served ->
  truthy (strip question) = true ->
  exists ts,
    length ts = n /\ history a = messages_of_turns ts /\
    let window := drop (n - Z.to_nat (max_turns a0)) ts in
    let '(_, a', served') := ask a served question in
    served' = served ++ [Request (messages_of_turns window) question] /\
    (Z.of_nat (length window) <= max_turns a0) /\
    (Z.of_nat (length (messages_of_turns window)) <= 2 * max_turns a0) /\
    window `suffix_of` ts /\
    messages_of_turns ts `prefix_of` history a'.
Proof.
  intros Hm H0 Hs Hq.
  destruct (session_history _ _ _ _ _ H0 Hs) as (ts & Hlen & Hh & Hmt & Hc).
  exists ts. split; [done|]. split; [done|]. simpl.
  assert (Hw : trimmed_history a =
               messages_of_turns (drop (n - Z.to_nat (max_turns a0)) ts)).
  { rewrite <- Hmt, <- Hlen. apply trimmed_history_turns; [lia|done]. }
  unfold ask. rewrite Hq. simpl. rewrite Hw.
  assert (Hl : Z.of_nat (length (drop (n - Z.to_nat (max_turns a0)) ts)) <= max_turns a0).
  { rewrite length_drop. lia. }
  destruct (chain a served _); simpl; repeat split; try done.
  - rewrite length_messages_of_turns. lia.
  - apply suffix_drop.
  - rewrite Hh. by apply prefix_app_r.
  - rewrite length_messages_of_turns. lia.
  - apply suffix_drop.
  - by rewrite Hh.
Qed.


(** C3, at [max_turns = 0].  After one answered question the next request
    carries that whole turn: [self.history[-0:]] is the whole list, so the
    window holds two messages where the bound [2 * max_turns] is zero. *)
Theorem ask_window_zero_max_turns :
  let a0 := Build_Agent always_ok [] 0 in
  let '(_, a1, s1) := ask a0 [] (lit "a") in
  let '(_, _, s2) := ask a1 s1 (lit "b") in
  session a0 [] 1 a1 s1 /\
  max_turns a1 = 0 /\
  trimmed_history a1 = [HumanMessage (lit "a"); AIMessage (lit "ok")] /\
  s2 = [Request [] (lit "a");
        Request [HumanMessage (lit "a"); AIMessage (lit "ok")] (lit "b")].
Proof.
  vm_compute. split; [|done].
  apply (session_ask _ _ 0 _ _ (lit "a") (lit "ok") _ _ (session_start _ _)); reflexivity.
Qed.

Lemma ask_blank_is_noop_witness :
  forallb isspace (lit "   ") = true /\
  ask (new_agent always_ok) [] (lit "   ") = (Ok fallback, new_agent always_ok, []) /\
  ask (new_agent always_ok) [] [] = (Ok fallback, new_agent always_ok, []).
Proof.
  split; [reflexivity|].
  split; apply (ask_blank_is_noop (new_agent always_ok) []); reflexivity.
Defined.

End AskProperties.


(** ** categorize *)

Section CategorizeProperties.
Import Py Categorizer.
Local Open Scope string_scope.

Lemma has_column_lookup name cols :
  existsb (String.eqb name) (map fst cols) = true ->
  exists c, lookup_column name cols = Some c.
Proof.
  induction cols as [|[n c] cols IH]; simpl; [done|].
  rewrite (String.eqb_sym name n).
  destruct (String.eqb n name); simpl; eauto.
Qed.

Lemma lookup_assign_eq name col cols :
  lookup_column name (assign_column name col cols) = Some col.
Proof.
  induction cols as [|[n c] cols IH]; simpl.
  - by rewrite String.eqb_refl.
  - destruct (String.eqb n name) eqn:E; simpl; by rewrite E.
Qed.

Lemma lookup_assign_ne name name' col cols :
  name' <> name ->
  lookup_column name' (assign_column name col cols) = lookup_column name' cols.
Proof.
  intros Hne. induction cols as [|[n c] cols IH]; simpl.
  - destruct (String.eqb_spec name name'); [congruence|done].
  - destruct (String.eqb_spec n name) as [->|]; simpl.
    + destruct (String.eqb_spec name name'); [congruence|done].
    + by rewrite IH.
Qed.

Lemma assign_column_absent name col cols :
  existsb (String.eqb name) (map fst cols) = false ->
  assign_column name col cols = (cols ++ [(name, col)])%list.
Proof.
  induction cols as [|[n c] cols IH]; simpl; [done|].
  rewrite (String.eqb_sym name n).
  destruct (String.eqb n name); simpl; [done|]. intros H. by rewrite IH.
Qed.

Lemma assign_column_labels name col cols :
  existsb (String.eqb name) (map fst cols) = true ->
  map fst (assign_column name col cols) = map fst cols.
Proof.
  induction cols as [|[n c] cols IH]; simpl; [done|].
  rewrite (String.eqb_sym name n).
  destruct (String.eqb n name); simpl; [done|]. intros H. by rewrite IH.
Qed.

(** What [categorize] computes, step by step, on a frame with a [category]
    column: it never raises. *)
Lemma categorize_ok (h : heap) (df : loc) (fr : DataFrame) :
  h !! df = Some fr ->
  has_column "category" fr = true ->
  exists raw,
    lookup_column "category" (columns fr) = Some raw /\
    categorize h df =
      Ok (<[fresh (dom h) :=
              setitem "spending_category"
                (fillna (Str "Miscellaneous") (series_map CATEGORY_MAP raw)) fr]>
            (<[fresh (dom h) := fr]> h),
          fresh (dom h)).
Proof.
  intros Hdf Hcat.
  destruct (has_column_lookup _ _ Hcat) as [raw Hraw]. exists raw. split; [done|].
  unfold categorize, deref, _validate_input, copy, getitem, mbind, result_bind.
  rewrite Hdf. simpl. rewrite Hcat. simpl.
  rewrite lookup_insert_eq. simpl. by rewrite Hraw.
Qed.

Lemma mapped_cell (d : gmap string string) (raw : Series) (i : nat) (c : cell) :
  raw !! i = Some c ->
  fillna (Str "Miscellaneous") (series_map d raw) !! i =
    Some match c with
         | Str s => Str (default "Miscellaneous" (d !! s))
         | _ => Str "Miscellaneous"
         end.
Proof.
  unfold fillna, series_map. revert i.
  induction raw as [|c0 raw IH]; intros [|i] Hc; simplify_eq/=; [|by apply IH].
  destruct c as [s| |]; [|done..]. by destruct (d !! s).
Qed.

(** C6. On a frame with a [category] column [categorize] returns: the new
    column has one cell per row; a raw string that is a key of the table gets
    the table's entry, and a raw string that is no key gets "Miscellaneous"
    (as does a cell that is not a string). *)
Theorem categorize_total (h : heap) (df : loc) (fr : DataFrame) :
  h !! df = Some fr ->
  has_column "category" fr = true ->
  exists h' df' fr' raw out,
    categorize h df = Ok (h', df') /\
    h' !! df' = Some fr' /\
    getitem fr "category" = Ok raw /\
    getitem fr' "spending_category" = Ok out /\
    length out = length raw /\
    forall i c, raw !! i = Some c ->
      match c with
      | Str s =>
          (forall v, CATEGORY_MAP !! s = Some v -> out !! i = Some (Str v)) /\
          (CATEGORY_MAP !! s = None -> out !! i = Some (Str "Miscellaneous"))
      | Num _ | NaN => out !! i = Some (Str "Miscellaneous")
      end.
Proof.
  intros Hdf Hcat. destruct (categorize_ok h df fr Hdf Hcat) as (raw & Hraw & Hc).
  eexists _, _, _, raw, _. split; [exact Hc|].
  split; [apply lookup_insert_eq|].
  split; [unfold getitem; by rewrite Hraw|].
  split; [unfold getitem, setitem; simpl; by rewrite lookup_assign_eq|].
  split; [unfold fillna, series_map; by rewrite !length_map|].
  intros i c Hi. pose proof (mapped_cell CATEGORY_MAP raw i c Hi) as Hm.
  destruct c as [s| |]; [|done..].
  split; [intros v Hv | intros Hv]; by rewrite Hm, Hv.
Qed.


Lemma categorize_total_witness :
  exists h' df' fr' raw out,
    categorize {[1%positive := loaded_frame]} 1%positive = Ok (h', df') /\
    h' !! df' = Some fr' /\
    getitem loaded_frame "category" = Ok raw /\
    getitem fr' "spending_category" = Ok out /\
    length out = length raw /\
    forall i c, raw !! i = Some c ->
      match c with
      | Str s =>
          (forall v, CATEGORY_MAP !! s = Some v -> out !! i = Some (Str v)) /\
          (CATEGORY_MAP !! s = None -> out !! i = Some (Str "Miscellaneous"))
      | Num _ | NaN => out !! i = Some (Str "Miscellaneous")
      end.
Proof.
  apply (categorize_total {[1%positive := loaded_frame]} 1%positive loaded_frame);
    reflexivity.
Defined.

Example categorize_loaded_frame :
  getitem (setitem "spending_category"
             (fillna (Str "Miscellaneous")
                (series_map CATEGORY_MAP
                   [Str "grocery_pos"; Str "unknown_x"; NaN])) loaded_frame)
          "spending_category"
  = Ok [Str "Food & Groceries"; Str "Miscellaneous"; Str "Miscellaneous"].
Proof. vm_compute. reflexivity. Qed.


(** C10 as stated fails on a frame that already has a [spending_category]
    column: the column is replaced, and no column is added. *)
Lemma categorize_replaces_existing_column :
  exists h' df' fr',
    categorize {[1%positive := categorized_frame]} 1%positive = Ok (h', df') /\
    h' !! df' = Some fr' /\
    columns fr' =
      [("category", [Str "home"]); ("spending_category", [Str "Home & Family"])] /\
    ~ adds_one_column categorized_frame fr'.
Proof.
  destruct (categorize_ok {[1%positive := categorized_frame]} 1%positive
              categorized_frame) as (raw & Hraw & Hc); [reflexivity..|].
  injection Hraw as <-.
  eexists _, _, _. split; [exact Hc|]. split; [apply lookup_insert_eq|].
  split; [reflexivity|].
  intros [col Hcol]. vm_compute in Hcol. discriminate.
Qed.

(** C10, amended.  [categorize] works on a new object: the caller's frame and
    every other object of the heap are as before.  In the frame returned every
    column other than [spending_category] is the caller's; when the caller's
    frame has no [spending_category] column, the result is the caller's
    columns followed by that one column, and otherwise the column is
    replaced where it stands. *)
Theorem categorize_frame (h : heap) (df : loc) (fr : DataFrame) :
  h !! df = Some fr ->
  has_column "category" fr = true ->
  exists h' df' fr' out,
    categorize h df = Ok (h', df') /\
    h !! df' = None /\
    h' !! df = Some fr /\
    (forall l, l <> df' -> h' !! l = h !! l) /\
    h' !! df' = Some fr' /\
    (forall name, name <> "spending_category" ->
       lookup_column name (columns fr') = lookup_column name (columns fr)) /\
    lookup_column "spending_category" (columns fr') = Some out /\
    (has_column "spending_category" fr = false ->
       columns fr' = (columns fr ++ [("spending_category", out)])%list) /\
    (has_column "spending_category" fr = true ->
       map fst (columns fr') = map fst (columns fr)).
Proof.
  intros Hdf Hcat. destruct (categorize_ok h df fr Hdf Hcat) as (raw & Hraw & Hc).
  assert (Hfresh : h !! fresh (dom h) = None).
  { apply not_elem_of_dom, is_fresh. }
  assert (Hne : fresh (dom h) <> df) by congruence.
  eexists _, _, _, _. split; [exact Hc|].
  split; [exact Hfresh|].
  split; [by rewrite !lookup_insert_ne|].
  split; [intros l Hl; by rewrite !lookup_insert_ne|].
  split; [apply lookup_insert_eq|].
  split; [intros name Hn; by apply lookup_assign_ne|].
  split; [apply lookup_assign_eq|].
  split; intros Hsc; simpl.
  - by apply assign_column_absent.
  - by apply assign_column_labels.
Qed.

Lemma categorize_frame_witness :
  exists h' df' fr' out,
    categorize {[1%positive := loaded_frame]} 1%positive = Ok (h', df') /\
    ({[1%positive := loaded_frame]} : heap) !! df' = None /\
    h' !! 1%positive = Some loaded_frame /\
    (forall l, l <> df' -> h' !! l = ({[1%positive := loaded_frame]} : heap) !! l) /\
    h' !! df' = Some fr' /\
    (forall name, name <> "spending_category" ->
       lookup_column name (columns fr') = lookup_column name (columns loaded_frame)) /\
    lookup_column "spending_category" (columns fr') = Some out /\
    (has_column "spending_category" loaded_frame = false ->
       columns fr' = (columns loaded_frame ++ [("spending_category", out)])%list) /\
    (has_column "spending_category" loaded_frame = true ->
       map fst (columns fr') = map fst (columns loaded_frame)).
Proof.
  apply (categorize_frame {[1%positive := loaded_frame]} 1%positive loaded_frame);
    reflexivity.
Defined.

End CategorizeProperties.
(** ** Orders of labels *)

Section Orders.
Import Py Summary.

Lemma ascii_compare_lt_trans (a b c : ascii) :
  Ascii.compare a b = Lt -> Ascii.compare b c = Lt -> Ascii.compare a c = Lt.
Proof.
  unfold Ascii.compare. rewrite !N.compare_lt_iff. lia.
Qed.

Lemma string_compare_refl (s : string) : String.compare s s = Eq.
Proof.
  induction s as [|a s IH]; simpl; [done|].
  unfold Ascii.compare. by rewrite N.compare_refl.
Qed.

Lemma string_compare_lt_trans (s t u : string) :
  String.compare s t = Lt -> String.compare t u = Lt -> String.compare s u = Lt.
Proof.
  revert t u. induction s as [|a s IH]; intros [|b t] [|c u]; simpl; try done.
  destruct (Ascii.compare a b) eqn:Hab; try done;
    destruct (Ascii.compare b c) eqn:Hbc; try done.
  - apply Ascii.compare_eq_iff in Hab, Hbc. subst.
    unfold Ascii.compare. rewrite N.compare_refl. apply IH.
  - apply Ascii.compare_eq_iff in Hab. subst. by rewrite Hbc.
  - apply Ascii.compare_eq_iff in Hbc. subst. by rewrite Hab.
  - by rewrite (ascii_compare_lt_trans a b c).
Qed.

#[export] Instance string_strict_total : StrictTotal string.
Proof.
  split; unfold less, string_ord, String.ltb.
  - intros s. by rewrite string_compare_refl.
  - intros s t u Hst Htu.
    destruct (String.compare s t) eqn:E1; try done.
    destruct (String.compare t u) eqn:E2; try done.
    by rewrite (string_compare_lt_trans s t u).
  - intros s t Hst Hts. rewrite String.compare_antisym in Hts.
    destruct (String.compare s t) eqn:E; try done.
    by apply String.compare_eq_iff.
Qed.

#[export] Instance Z_strict_total : StrictTotal Z.
Proof.
  split; unfold less, Z_ord; intros; rewrite ?Z.ltb_lt, ?Z.ltb_ge in *; lia.
Qed.

Lemma pair_less {K1 K2} `{Ord K1, Ord K2} (a b : K1 * K2) :
  less a b = less (fst a) (fst b) || (negb (less (fst b) (fst a)) && less (snd a) (snd b)).
Proof. reflexivity. Qed.

#[export] Instance pair_strict_total {K1 K2} `{StrictTotal K1, StrictTotal K2} :
  StrictTotal (K1 * K2).
Proof.
  split.
  - intros [a b]. rewrite pair_less. simpl. by rewrite !less_irrefl.
  - intros [a1 b1] [a2 b2] [a3 b3]. rewrite !pair_less. simpl.
    intros H12 H23.
    destruct (less a1 a2) eqn:E12; simpl in H12.
    + destruct (less a2 a3) eqn:E23; simpl in H23.
      * by rewrite (less_trans a1 a2 a3).
      * apply andb_prop in H23 as [Hn Hb]. apply negb_true_iff in Hn.
        rewrite (less_connex a2 a3 E23 Hn) in E12. by rewrite E12.
    + apply andb_prop in H12 as [Hn12 Hb12]. apply negb_true_iff in Hn12.
      pose proof (less_connex a1 a2 E12 Hn12) as ->.
      destruct (less a2 a3) eqn:E23; simpl in *; [done|].
      apply andb_prop in H23 as [Hn Hb]. rewrite Hn. simpl.
      by apply (less_trans b1 b2 b3).
  - intros [a1 b1] [a2 b2]. rewrite !pair_less. simpl.
    intros H12 H21.
    apply orb_false_elim in H12 as [E12 H12], H21 as [E21 H21].
    pose proof (less_connex a1 a2 E12 E21) as ->.
    rewrite E12 in H12, H21. simpl in *.
    by rewrite (less_connex b1 b2 H12 H21).
Qed.

End Orders.

(** ** Groups and sums *)

Section Keys.
Import Py Summary.
Context {K : Type} `{StrictTotal K}.

Lemma less_asym (a b : K) : less a b = true -> less b a = false.
Proof.
  intros Hab. destruct (less b a) eqn:Hba; [|done].
  by rewrite <- (less_irrefl a), (less_trans a b a Hab Hba).
Qed.

(** Not being below is transitive. *)
Lemma not_less_trans (a b c : K) :
  less a b = false -> less b c = false -> less a c = false.
Proof.
  intros Hab Hbc. destruct (less a c) eqn:Hac; [|done].
  destruct (less b a) eqn:Hba.
  - by rewrite (less_trans b a c Hba Hac) in Hbc.
  - rewrite (less_connex a b Hab Hba) in Hac. by rewrite Hac in Hbc.
Qed.

Lemma less_not_less_trans (a b c : K) :
  less a b = true -> less c b = false -> less a c = true.
Proof.
  intros Hab Hcb. destruct (less a c) eqn:Hac; [done|].
  pose proof (not_less_trans _ _ _ Hac Hcb) as Hn. by rewrite Hab in Hn.
Qed.

Lemma tie_eq (a b : K) : tie a b = true <-> a = b.
Proof.
  unfold tie. split.
  - intros [Ha Hb]%andb_prop. apply negb_true_iff in Ha, Hb. by apply less_connex.
  - intros ->. by rewrite less_irrefl.
Qed.


Lemma elem_of_insert_key (x k : K) (ks : list K) :
  x ∈ insert_key k ks <-> x = k \/ x ∈ ks.
Proof.
  induction ks as [|k' ks IH]; simpl.
  - by rewrite elem_of_cons.
  - destruct (less k k') eqn:E1; [by rewrite elem_of_cons|].
    destruct (less k' k) eqn:E2.
    + rewrite !elem_of_cons, IH. tauto.
    + rewrite (less_connex k k' E1 E2), elem_of_cons. tauto.
Qed.

Lemma insert_key_ascending (k : K) (ks : list K) :
  ascending ks -> ascending (insert_key k ks).
Proof.
  unfold ascending. induction 1 as [|k' ks Hs IH Hk']; simpl.
  - repeat constructor.
  - destruct (less k k') eqn:E1.
    + constructor; [by constructor|]. constructor; [done|].
      eapply Forall_impl; [exact Hk'|]. intros y Hy. simpl in *.
      by apply (less_trans k k' y).
    + destruct (less k' k) eqn:E2; [|by constructor].
      constructor; [done|]. apply Forall_forall. intros y Hy.
      apply elem_of_insert_key in Hy as [->|Hy]; [done|].
      by apply (proj1 (Forall_forall _ _) Hk').
Qed.

Lemma group_keys_ascending (ks : list K) : ascending (group_keys ks).
Proof.
  induction ks as [|k ks IH]; simpl; [constructor|]. by apply insert_key_ascending.
Qed.

Lemma elem_of_group_keys (x : K) (ks : list K) : x ∈ group_keys ks <-> x ∈ ks.
Proof.
  induction ks as [|k ks IH]; simpl; [done|].
  by rewrite elem_of_insert_key, IH, elem_of_cons.
Qed.

Lemma ascending_NoDup (ks : list K) : ascending ks -> NoDup ks.
Proof.
  induction 1 as [|k ks Hs IH Hk]; constructor; [|done].
  intros Hin. pose proof (proj1 (Forall_forall _ _) Hk k Hin) as Hkk.
  simpl in Hkk. by rewrite less_irrefl in Hkk.
Qed.

Lemma ascending_unique (l1 l2 : list K) :
  ascending l1 -> ascending l2 -> (forall x, x ∈ l1 <-> x ∈ l2) -> l1 = l2.
Proof.
  intros H1 H2 Hel. apply (StronglySorted_unique_strong (fun a b => less a b = true)); try done.
  - intros x1 x2 _ _ H12 H21. by rewrite (less_asym _ _ H12) in H21.
  - apply NoDup_Permutation; auto using ascending_NoDup.
Qed.

(** The labels of the groups do not depend on the order of the rows. *)
Lemma group_keys_perm (l1 l2 : list K) : l1 ≡ₚ l2 -> group_keys l1 = group_keys l2.
Proof.
  intros Hp. apply ascending_unique; auto using group_keys_ascending.
  intros x. rewrite !elem_of_group_keys. by rewrite Hp.
Qed.

Lemma group_keys_nonempty (ks : list K) : ks <> [] -> group_keys ks <> [].
Proof.
  destruct ks as [|k ks]; [done|]. intros _ Hnil.
  assert (Hk : k ∈ group_keys (k :: ks)) by (apply elem_of_group_keys; left).
  rewrite Hnil in Hk. by apply elem_of_nil in Hk.
Qed.

End Keys.


Section Timestamps.
Import Py Summary.

Lemma fold_min_spec (x : Z) (r : list Z) :
  fold_left Z.min r x ∈ x :: r /\ Forall (fun y => fold_left Z.min r x <= y) (x :: r).
Proof.
  revert x. induction r as [|y r IH]; intros x; simpl.
  - split; [left|]. repeat constructor. lia.
  - destruct (IH (Z.min x y)) as [Hin Hall].
    apply Forall_cons in Hall as [Hm Hr]. split.
    + apply elem_of_cons in Hin as [->|Hin]; [|right; by right].
      destruct (Z.min_spec x y) as [[_ ->]|[_ ->]]; [left|right; left].
    + repeat constructor; [lia..|done].
Qed.

Lemma fold_max_spec (x : Z) (r : list Z) :
  fold_left Z.max r x ∈ x :: r /\ Forall (fun y => y <= fold_left Z.max r x) (x :: r).
Proof.
  revert x. induction r as [|y r IH]; intros x; simpl.
  - split; [left|]. repeat constructor. lia.
  - destruct (IH (Z.max x y)) as [Hin Hall].
    apply Forall_cons in Hall as [Hm Hr]. split.
    + apply elem_of_cons in Hin as [->|Hin]; [|right; by right].
      destruct (Z.max_spec x y) as [[_ ->]|[_ ->]]; [right; left|left].
    + repeat constructor; [lia..|done].
Qed.

Lemma ts_min_perm (l l' : list Z) : l ≡ₚ l' -> ts_min l = ts_min l'.
Proof.
  intros Hp. destruct l as [|x r], l' as [|x' r']; simpl.
  - done.
  - by apply Permutation_nil_cons in Hp.
  - symmetry in Hp. by apply Permutation_nil_cons in Hp.
  - f_equal. destruct (fold_min_spec x r) as [Hin Hall].
    destruct (fold_min_spec x' r') as [Hin' Hall'].
    rewrite Hp in Hall. rewrite <- Hp in Hall'.
    pose proof (proj1 (Forall_forall _ _) Hall _ Hin').
    pose proof (proj1 (Forall_forall _ _) Hall' _ Hin). simpl in *. lia.
Qed.

Lemma ts_max_perm (l l' : list Z) : l ≡ₚ l' -> ts_max l = ts_max l'.
Proof.
  intros Hp. destruct l as [|x r], l' as [|x' r']; simpl.
  - done.
  - by apply Permutation_nil_cons in Hp.
  - symmetry in Hp. by apply Permutation_nil_cons in Hp.
  - f_equal. destruct (fold_max_spec x r) as [Hin Hall].
    destruct (fold_max_spec x' r') as [Hin' Hall'].
    rewrite Hp in Hall. rewrite <- Hp in Hall'.
    pose proof (proj1 (Forall_forall _ _) Hall _ Hin').
    pose proof (proj1 (Forall_forall _ _) Hall' _ Hin). simpl in *. lia.
Qed.

Lemma fold_left_Zadd (l : list Z) (z : Z) : fold_left Z.add l z = z + foldr Z.add 0 l.
Proof.
  revert z. induction l as [|x l IH]; intros z; simpl; [lia|]. rewrite IH. lia.
Qed.

Lemma fold_add_perm (l l' : list Z) (z : Z) :
  l ≡ₚ l' -> fold_left Z.add l z = fold_left Z.add l' z.
Proof.
  intros Hp. revert z.
  induction Hp as [|x l1 l2 _ IH|x y l|l1 l2 l3 _ IH1 _ IH2]; intros z; simpl.
  - done.
  - apply IH.
  - f_equal. lia.
  - by rewrite IH1.
Qed.

End Timestamps.

(** ** The stable sort meets what [sort_values] promises *)

Section StableSort.
Import Py Summary.
Context {A : Type} `{StrictTotal A}.

Lemma insert_desc_perm {R} (key : R -> A) (x : R) (l : list R) :
  insert_desc key x l ≡ₚ x :: l.
Proof.
  induction l as [|y l IH]; simpl; [done|].
  destruct (less (key x) (key y)); [|done].
  rewrite IH. apply Permutation_swap.
Qed.

Lemma stable_sort_desc_perm {R} (key : R -> A) (l : list R) :
  stable_sort_desc key l ≡ₚ l.
Proof.
  induction l as [|x l IH]; simpl; [done|].
  by rewrite insert_desc_perm, IH.
Qed.

Lemma insert_desc_sorted {R} (key : R -> A) (x : R) (l : list R) :
  StronglySorted (fun a b => less (key a) (key b) = false) l ->
  StronglySorted (fun a b => less (key a) (key b) = false) (insert_desc key x l).
Proof.
  induction 1 as [|y l Hs IH Hy]; simpl; [repeat constructor|].
  destruct (less (key x) (key y)) eqn:Hxy.
  - constructor; [done|]. rewrite insert_desc_perm.
    constructor; [|done]. by apply less_asym.
  - constructor; [by constructor|]. constructor; [done|].
    eapply Forall_impl; [exact Hy|]. intros z Hz. simpl in *.
    by apply (not_less_trans _ (key y)).
Qed.

Lemma stable_sort_desc_sorted {R} (key : R -> A) (l : list R) :
  StronglySorted (fun a b => less (key a) (key b) = false) (stable_sort_desc key l).
Proof.
  induction l as [|x l IH]; simpl; [constructor|]. by apply insert_desc_sorted.
Qed.

Lemma insert_desc_stable {R} (key : R -> A) (x : R) (l : list R) (a : A) :
  filter (fun r => tie (key r) a = true) (insert_desc key x l)
  = filter (fun r => tie (key r) a = true) (x :: l).
Proof.
  induction l as [|y l IH]; simpl; [done|].
  destruct (less (key x) (key y)) eqn:Hxy; [|done].
  rewrite (filter_cons _ y), IH, !filter_cons.
  destruct (decide (tie (key y) a = true)) as [Hy|]; [|done].
  destruct (decide (tie (key x) a = true)) as [Hx|]; [|done].
  apply tie_eq in Hx, Hy. rewrite <- Hy in Hx. rewrite Hx in Hxy.
  by rewrite less_irrefl in Hxy.
Qed.

Lemma stable_sort_desc_stable {R} (key : R -> A) (l : list R) (a : A) :
  filter (fun r => tie (key r) a = true) (stable_sort_desc key l)
  = filter (fun r => tie (key r) a = true) l.
Proof.
  induction l as [|x l IH]; simpl; [done|].
  by rewrite insert_desc_stable, !filter_cons, IH.
Qed.

#[export] Instance stable_sorter_spec : @SorterSpec A _ (stable_sorter A).
Proof.
  split; intros R key l.
  - apply stable_sort_desc_perm.
  - apply stable_sort_desc_sorted.
Qed.

#[export] Instance stable_sorter_stable `{Comparable A} :
  @StableSorter A _ _ (stable_sorter A).
Proof. intros R key l a _ _. apply stable_sort_desc_stable. Qed.

End StableSort.

Section AscendingSort.
Import Py Summary.
Context {K : Type} `{Ord K}.

Lemma insert_asc_perm {R} (key : R -> K) (x : R) (l : list R) :
  insert_asc key x l ≡ₚ x :: l.
Proof.
  induction l as [|y l IH]; simpl; [done|].
  destruct (less (key y) (key x)); [|done].
  rewrite IH. apply Permutation_swap.
Qed.

Lemma stable_sort_asc_perm {R} (key : R -> K) (l : list R) :
  stable_sort_asc key l ≡ₚ l.
Proof.
  induction l as [|x l IH]; simpl; [done|].
  by rewrite insert_asc_perm, IH.
Qed.

End AscendingSort.

(** ** build_context_summary *)

Section SummaryShape.
Import Py Summary.
Context {A : Type} {HA : Arith A} {HS : Sorter A}.

Lemma insert_key_not_nil {K} `{Ord K} (k : K) (ks : list K) : insert_key k ks <> [].
Proof. destruct ks as [|k' ks]; simpl; [done|]. repeat case_match; done. Qed.

Lemma sum_by_nonempty {K} `{Ord K, EqDecision K} (key : row A -> K) (df : list (row A)) :
  df <> [] -> sum_by key df <> [].
Proof.
  destruct df as [|r df]; [done|]. intros _. unfold sum_by, groupby. simpl.
  pose proof (insert_key_not_nil (key r) (group_keys (map key df))).
  by destruct (insert_key _ _).
Qed.

Lemma sum_count_by_nonempty {K} `{Ord K, EqDecision K} (key : row A -> K) (df : list (row A)) :
  df <> [] -> sum_count_by key df <> [].
Proof.
  destruct df as [|r df]; [done|]. intros _. unfold sum_count_by, groupby. simpl.
  pose proof (insert_key_not_nil (key r) (group_keys (map key df))).
  by destruct (insert_key _ _).
Qed.

Lemma idxmax_ok {K} (s : list (K * A)) : s <> [] -> exists k, idxmax s = Ok k.
Proof. destruct s; [done|]. intros _. by eexists. Qed.

(** On at least one row no step of the summary raises, and the summary
    holds these values. *)
Lemma build_context_summary_ok (df : list (row A)) :
  df <> [] ->
  exists s,
    build_context_summary df = Ok s /\
    total_spend s = series_sum (map amount df) /\
    cat_lines s =
      map (fun r => (fst (fst r), snd (fst r),
                     div (mul (of_int 100) (snd (fst r))) (series_sum (map amount df)),
                     snd r))
          (sort_values_desc (fun r => snd (fst r)) (sum_count_by spending_category df)) /\
    merch_lines s =
      imap (fun i m => (Z.of_nat i + 1, fst m, snd m))
           (take 10 (sort_values_desc snd (sum_by merchant df))) /\
    monthly_lines s =
      map (fun m => (snd (fst m), snd m))
          (tail 6 (stable_sort_asc (fun m => (fst (fst (fst m)), snd (fst (fst m))))
                     (sum_by (fun r => (year r, month r, month_name r)) df))) /\
    idxmax (sum_by day_of_week df) = Ok (peak_day s) /\
    idxmax (sum_by hour df) = Ok (peak_hour s).
Proof.
  intros Hdf.
  destruct (idxmax_ok (sum_by day_of_week df)) as [pd Hpd]; [by apply sum_by_nonempty|].
  destruct (idxmax_ok (sum_by hour df)) as [ph Hph]; [by apply sum_by_nonempty|].
  unfold build_context_summary. rewrite Hpd, Hph.
  destruct df as [|r df]; [done|]. cbn [map ts_min ts_max strftime mbind result_bind bind].
  unfold true_div.
  destruct (Z.eqb_spec (Z.of_nat (length (r :: df))) 0) as [Hz|_]; [simpl in Hz; lia|].
  cbn [mbind result_bind bind]. eexists. split; [reflexivity|]. by cbn.
Qed.

(** C4, amended.  On zero records the summary raises: the minimum of the
    empty [datetime] column is [NaT], and formatting it is a [ValueError].
    No report is returned, and no error of the summary's own is involved. *)
Theorem build_context_summary_empty :
  build_context_summary ([] : list (row A)) = Raise "ValueError"%string.
Proof. reflexivity. Qed.

End SummaryShape.

Section SortedLists.

Lemma StronglySorted_map {X Y} (R : Y -> Y -> Prop) (f : X -> Y) (l : list X) :
  StronglySorted (fun a b => R (f a) (f b)) l -> StronglySorted R (map f l).
Proof.
  induction 1 as [|x l Hs IH Hx]; simpl; constructor; [done|].
  apply Forall_forall. intros y (x' & <- & Hx')%list_elem_of_In%in_map_iff.
  by apply (proj1 (Forall_forall _ _) Hx), list_elem_of_In.
Qed.

Lemma StronglySorted_weaken {X} (R R' : X -> X -> Prop) (l : list X) :
  (forall a b, R a b -> R' a b) -> StronglySorted R l -> StronglySorted R' l.
Proof.
  intros HR. induction 1 as [|x l Hs IH Hx]; constructor; [done|].
  eapply Forall_impl; [exact Hx|]. auto.
Qed.

Lemma StronglySorted_filter {X} (R : X -> X -> Prop) (P : X -> Prop)
    `{forall x, Decision (P x)} (l : list X) :
  StronglySorted R l -> StronglySorted R (filter P l).
Proof.
  induction 1 as [|x l Hs IH Hx]; [constructor|].
  rewrite filter_cons. destruct (decide (P x)); [|done].
  constructor; [done|]. apply Forall_forall. intros y [_ Hy]%list_elem_of_filter.
  by apply (proj1 (Forall_forall _ _) Hx).
Qed.

Lemma StronglySorted_take {X} (R : X -> X -> Prop) (n : nat) (l : list X) :
  StronglySorted R l -> StronglySorted R (take n l).
Proof.
  intros Hs. revert n. induction Hs as [|x l Hs IH Hx]; intros [|n]; simpl;
    try constructor; [apply IH|].
  apply Forall_forall. intros y Hy.
  apply (proj1 (Forall_forall _ _) Hx). revert Hy. apply subseteq_take.
Qed.

Lemma StronglySorted_imap {X Y} (R : Y -> Y -> Prop) (R' : X -> X -> Prop)
    (f : nat -> X -> Y) (l : list X) :
  (forall i j x y, R' x y -> R (f i x) (f j y)) ->
  StronglySorted R' l -> StronglySorted R (imap f l).
Proof.
  intros Hf Hs. revert f Hf. induction Hs as [|x l Hs IH Hx]; intros f Hf; simpl;
    constructor.
  - apply IH. intros i j. apply Hf.
  - apply Forall_forall. intros y (i & x' & -> & Hi)%elem_of_lookup_imap.
    apply Hf, (proj1 (Forall_forall _ _) Hx). by eapply list_elem_of_lookup_2.
Qed.

(** If the rows selected by each [p v] are in [Q]-order, any two rows that
    some [p v] selects together are in [Q]-order. *)
Lemma StronglySorted_by_filter {X V} (R Q : X -> X -> Prop) (p : V -> X -> bool)
    (l : list X) :
  (forall v, StronglySorted Q (filter (fun x => p v x = true) l)) ->
  StronglySorted R l ->
  StronglySorted (fun a b => R a b /\ forall v, p v a = true -> p v b = true -> Q a b) l.
Proof.
  intros HQ Hs. induction Hs as [|x l Hs IH Hx]; constructor.
  - apply IH. intros v. specialize (HQ v). rewrite filter_cons in HQ.
    destruct (decide (p v x = true)); [by inversion HQ|done].
  - apply Forall_forall. intros y Hy. split.
    + by apply (proj1 (Forall_forall _ _) Hx).
    + intros v Hvx Hvy. specialize (HQ v). rewrite filter_cons in HQ.
      destruct (decide (p v x = true)); [|done]. inversion HQ as [|? ? _ Hall]; subst.
      apply (proj1 (Forall_forall _ _) Hall). by apply list_elem_of_filter.
Qed.

End SortedLists.

Section GroupTables.
Import Py Summary.
Context {A : Type} `{Arith A}.
Context {K : Type} `{StrictTotal K} `{EqDecision K}.

Lemma sum_by_eq (key : row A -> K) (df : list (row A)) :
  sum_by key df = map (fun k => (k, group_total key df k)) (group_keys (map key df)).
Proof. unfold sum_by, groupby. by rewrite map_map. Qed.

Lemma elem_of_sum_by (key : row A -> K) (df : list (row A)) (k : K) (v : A) :
  (k, v) ∈ sum_by key df <->
  (exists r, r ∈ df /\ key r = k) /\ v = group_total key df k.
Proof.
  rewrite sum_by_eq, list_elem_of_In, in_map_iff. split.
  - intros (k' & [= <- <-] & Hk). split; [|done].
    apply (proj2 (list_elem_of_In _ _)) in Hk.
    apply (proj1 (elem_of_group_keys _ _)) in Hk.
    apply (proj1 (list_elem_of_In _ _)) in Hk.
    apply in_map_iff in Hk as (r & Hr & Hin).
    exists r. by rewrite list_elem_of_In.
  - intros [(r & Hr & <-) ->]. exists (key r). split; [done|].
    apply (proj1 (list_elem_of_In _ _)), (proj2 (elem_of_group_keys _ _)).
    apply (proj2 (list_elem_of_In _ _)), in_map.
    by apply (proj1 (list_elem_of_In _ _)).
Qed.

(** The table of a [groupby] is in ascending order of its labels. *)
Lemma sum_by_ascending (key : row A -> K) (df : list (row A)) :
  StronglySorted (fun a b => less (fst a) (fst b) = true) (sum_by key df).
Proof. rewrite sum_by_eq. apply StronglySorted_map. simpl. apply group_keys_ascending. Qed.

Lemma sum_count_by_ascending (key : row A -> K) (df : list (row A)) :
  StronglySorted (fun a b => less (fst (fst a)) (fst (fst b)) = true)
                 (sum_count_by key df).
Proof.
  unfold sum_count_by, groupby. rewrite map_map.
  apply StronglySorted_map. simpl. apply group_keys_ascending.
Qed.

End GroupTables.

(** ** The order of the amounts *)

Section WeakOrders.
Import Py Summary.
Context {A : Type} `{WeakOrder A}.

Lemma weak_asym (a b : A) : less a b = true -> less b a = false.
Proof.
  intros Hab. destruct (less b a) eqn:Hba; [|done].
  by rewrite <- (weak_irrefl a), (weak_trans a b a Hab Hba).
Qed.

(** [first_max] splits a list without missing values at the first
    occurrence of its maximum: everything before is strictly below, nothing
    after is above. *)
Lemma first_max_split {K} (p : K * A) (r : list (K * A)) :
  Forall (fun x => comparable (snd x) = true) (p :: r) ->
  exists pre post,
    p :: r = pre ++ first_max p r :: post /\
    Forall (fun x => less (snd x) (snd (first_max p r)) = true) pre /\
    Forall (fun x => less (snd (first_max p r)) (snd x) = false) post.
Proof.
  unfold first_max. intros Hc.
  cut (forall pre mid,
         Forall (fun x => comparable (snd x) = true) (mid ++ r) ->
         Forall (fun x => less (snd x) (snd p) = true) pre ->
         Forall (fun x => less (snd p) (snd x) = false) mid ->
         let m := fold_left (fun best x => if less (snd best) (snd x) then x else best) r p in
         exists pre' post,
           pre ++ p :: mid ++ r = pre' ++ m :: post /\
           Forall (fun x => less (snd x) (snd m) = true) pre' /\
           Forall (fun x => less (snd m) (snd x) = false) post).
  { intros Hcut. apply (Hcut [] []); [|constructor..].
    by apply Forall_cons in Hc as [_ Hc]. }
  clear Hc. revert p. induction r as [|x r IH]; intros p pre mid Hc Hpre Hmid; simpl.
  - exists pre, mid. by rewrite app_nil_r.
  - apply Forall_app in Hc as [Hcm Hcr]. apply Forall_cons in Hcr as [Hcx Hcr].
    destruct (less (snd p) (snd x)) eqn:Hpx.
    + destruct (IH x (pre ++ p :: mid) []) as (pre' & post & Heq & Hq1 & Hq2).
      * done.
      * apply Forall_app. split; [|constructor; [done|]].
        -- eapply Forall_impl; [exact Hpre|]. intros y Hy. simpl in *.
           by apply (weak_trans _ (snd p)).
        -- apply Forall_forall. intros y Hy.
           pose proof (proj1 (Forall_forall _ _) Hmid y Hy) as Hpy.
           pose proof (proj1 (Forall_forall _ _) Hcm y Hy) as Hcy. simpl in *.
           destruct (less (snd y) (snd x)) eqn:E; [done|].
           by rewrite (weak_neg_trans _ _ _ Hcy Hpy E) in Hpx.
      * constructor.
      * exists pre', post. split; [|done]. rewrite <- Heq.
        by rewrite <- !app_assoc.
    + destruct (IH p pre (mid ++ [x])) as (pre' & post & Heq & Hq1 & Hq2).
      * rewrite <- app_assoc. apply Forall_app. split; [done|]. by constructor.
      * done.
      * apply Forall_app. split; [done|]. by repeat constructor.
      * exists pre', post. split; [|done]. rewrite <- Heq.
        by rewrite <- !app_assoc.
Qed.

(** The running maximum of a column without missing values is one of its
    values, and none is above it. *)
Lemma series_max_step_in (x : A) (r : list A) :
  Forall (fun y => comparable y = true) (x :: r) ->
  let m := fold_left (fun m y => if less m y then y else m) r x in
  m ∈ x :: r /\ Forall (fun y => less m y = false) (x :: r).
Proof.
  revert x. induction r as [|y r IH]; intros x Hc; simpl.
  - split; [left|]. repeat constructor. apply weak_irrefl.
  - apply Forall_cons in Hc as [Hcx Hc]. pose proof Hc as Hcr.
    apply Forall_cons in Hcr as [Hcy Hcr].
    destruct (less x y) eqn:Hxy.
    + destruct (IH y Hc) as [Hin Hall]. split.
      * right. exact Hin.
      * constructor; [|done]. apply Forall_cons in Hall as [Hy _].
        simpl in *. destruct (less _ x) eqn:E; [|done].
        by rewrite (weak_trans _ _ _ E Hxy) in Hy.
    + destruct (IH x) as [Hin Hall]; [by constructor|]. split.
      * apply elem_of_cons in Hin as [->|Hin]; [left|right; by right].
      * apply Forall_cons in Hall as [Hx Hr]. constructor; [done|].
        constructor; [|done]. simpl in *.
        by apply (weak_neg_trans _ x y).
Qed.

(** *** The sort that puts missing values last meets what [sort_values]
    promises, and is stable *)

Lemma insert_desc_sorted_weak {R} (key : R -> A) (x : R) (l : list R) :
  Forall (fun r => comparable (key r) = true) l ->
  StronglySorted (fun a b => less (key a) (key b) = false) l ->
  StronglySorted (fun a b => less (key a) (key b) = false) (insert_desc key x l).
Proof.
  intros Hc Hs. induction Hs as [|y l Hs IH Hy]; simpl; [repeat constructor|].
  apply Forall_cons in Hc as [Hcy Hc].
  destruct (less (key x) (key y)) eqn:Hxy.
  - constructor; [by apply IH|]. rewrite insert_desc_perm.
    constructor; [|done]. by apply weak_asym.
  - constructor; [by constructor|]. constructor; [done|].
    eapply Forall_impl; [exact Hy|]. intros z Hz. simpl in *.
    by apply (weak_neg_trans _ (key y)).
Qed.

Lemma stable_sort_desc_sorted_weak {R} (key : R -> A) (l : list R) :
  Forall (fun r => comparable (key r) = true) l ->
  StronglySorted (fun a b => less (key a) (key b) = false) (stable_sort_desc key l).
Proof.
  induction 1 as [|x l Hx Hl IH]; simpl; [constructor|].
  apply insert_desc_sorted_weak; [|done].
  by rewrite stable_sort_desc_perm.
Qed.

Lemma insert_desc_stable_weak {R} (key : R -> A) (x : R) (l : list R) (a : A) :
  comparable a = true ->
  filter (fun r => tie (key r) a = true) (insert_desc key x l)
  = filter (fun r => tie (key r) a = true) (x :: l).
Proof.
  intros Ha. induction l as [|y l IH]; simpl; [done|].
  destruct (less (key x) (key y)) eqn:Hxy; [|done].
  rewrite (filter_cons _ y), IH, !filter_cons.
  destruct (decide (tie (key y) a = true)) as [Hy|]; [|done].
  destruct (decide (tie (key x) a = true)) as [Hx|]; [|done].
  unfold tie in Hx, Hy.
  apply andb_prop in Hx as [Hx _], Hy as [_ Hy]. apply negb_true_iff in Hx, Hy.
  by rewrite (weak_neg_trans _ _ _ Ha Hx Hy) in Hxy.
Qed.

Lemma stable_sort_desc_stable_weak {R} (key : R -> A) (l : list R) (a : A) :
  comparable a = true ->
  filter (fun r => tie (key r) a = true) (stable_sort_desc key l)
  = filter (fun r => tie (key r) a = true) l.
Proof.
  intros Ha. induction l as [|x l IH]; simpl; [done|].
  by rewrite insert_desc_stable_weak, !filter_cons, IH.
Qed.

#[export] Instance na_last_sorter_spec : @SorterSpec A _ (na_last_sorter A).
Proof.
  split; intros R key l; unfold sort_values_desc, na_last_sorter.
  - rewrite stable_sort_desc_perm. apply filter_app_complement.
  - apply StronglySorted_app_2.
    + intros a b _ [Hb _]%list_elem_of_filter.
      destruct (less (key a) (key b)) eqn:E; [|done].
      by apply weak_comparable in E as [_ E].
    + apply stable_sort_desc_sorted_weak, Forall_forall.
      by intros r [Hr _]%list_elem_of_filter.
    + induction l as [|x l IH]; [constructor|].
      rewrite filter_cons. destruct (decide (~ comparable (key x) = true)) as [Hx|]; [|done].
      constructor; [done|]. apply Forall_forall. intros y _.
      destruct (less (key x) (key y)) eqn:E; [|done].
      by apply weak_comparable in E as [E _].
Qed.

#[export] Instance na_last_sorter_stable : @StableSorter A _ _ (na_last_sorter A).
Proof.
  intros R key l a Ha Hl. unfold sort_values_desc, na_last_sorter.
  assert (Hall : filter (fun r => comparable (key r) = true) l = l).
  { clear Ha. induction Hl as [|x l Hx Hl IH]; [done|].
    by rewrite filter_cons, decide_True, IH by done. }
  assert (Hnone : filter (fun r => ~ comparable (key r) = true) l = []).
  { clear Ha Hall. induction Hl as [|x l Hx Hl IH]; [done|].
    rewrite filter_cons, decide_False, IH; [done|]. by intros Hn. }
  rewrite Hall, Hnone, app_nil_r. by apply stable_sort_desc_stable_weak.
Qed.

End WeakOrders.

Section Peaks.
Import Py Summary.
Context {A : Type} {HA : Arith A} {HC : Comparable A} {HW : WeakOrder A} {HS : Sorter A}.

(** [idxmax] of a table in ascending order of labels and without missing
    values: a label of maximal value, and no label whose value is not below
    that maximum comes before it. *)
Lemma idxmax_first_of_ties {K} `{StrictTotal K} (t : list (K * A)) (k : K) :
  Forall (fun x => comparable (snd x) = true) t ->
  StronglySorted (fun a b => less (fst a) (fst b) = true) t ->
  idxmax t = Ok k ->
  exists v, (k, v) ∈ t /\
    forall k' v', (k', v') ∈ t ->
      less v v' = false /\ (less v' v = false -> less k' k = false).
Proof.
  intros Hc Hs Hk. destruct t as [|p r]; [done|]. injection Hk as <-.
  destruct (first_max_split p r Hc) as (pre & post & Heq & Hpre & Hpost).
  set (m := first_max p r) in *. exists (snd m). rewrite Heq in Hs |- *. split.
  - rewrite elem_of_app, elem_of_cons. right; left. by destruct m.
  - intros k' v' [Hin|[Hm|Hin]%elem_of_cons]%elem_of_app.
    + pose proof (proj1 (Forall_forall _ _) Hpre _ Hin) as Hlt. simpl in Hlt.
      split; [by apply weak_asym|]. intros Hn. by rewrite Hn in Hlt.
    + rewrite <- Hm. simpl. split; intros; [apply weak_irrefl|apply less_irrefl].
    + split; [by apply (proj1 (Forall_forall _ _) Hpost _ Hin)|]. intros _.
      apply StronglySorted_app_1_r in Hs. inversion Hs as [|? ? _ Hall]; subst.
      apply less_asym. by apply (proj1 (Forall_forall _ _) Hall _ Hin).
Qed.

Lemma sum_by_comparable {K} `{StrictTotal K} `{EqDecision K}
    (key : row A -> K) (df : list (row A)) :
  (forall r, r ∈ df -> comparable (group_total key df (key r)) = true) ->
  Forall (fun x => comparable (snd x) = true) (sum_by key df).
Proof.
  intros Hc. apply Forall_forall. intros [k v] [(r & Hr & <-) ->]%elem_of_sum_by.
  by apply Hc.
Qed.

(** C9, amended.  When no total of an hour or of a day is a missing value,
    the peak hour is an hour of the frame with the largest aggregated amount,
    and the lowest of the hours that tie for it (those whose amount is not
    below the largest).  The peak day is a day with the largest aggregated
    amount; among tying days it is the one whose name comes first in the
    order of strings, the order in which [groupby] lists the days. *)
Theorem peak_tie_break (df : list (row A)) :
  df <> [] ->
  (forall r, r ∈ df -> comparable (group_total hour df (hour r)) = true) ->
  (forall r, r ∈ df ->
     comparable (group_total day_of_week df (day_of_week r)) = true) ->
  exists s,
    build_context_summary df = Ok s /\
    (exists r, r ∈ df /\ hour r = peak_hour s) /\
    (forall r, r ∈ df ->
       less (group_total hour df (peak_hour s)) (group_total hour df (hour r)) = false /\
       (less (group_total hour df (hour r)) (group_total hour df (peak_hour s)) = false ->
        peak_hour s <= hour r)) /\
    (exists r, r ∈ df /\ day_of_week r = peak_day s) /\
    (forall r, r ∈ df ->
       less (group_total day_of_week df (peak_day s))
            (group_total day_of_week df (day_of_week r)) = false /\
       (less (group_total day_of_week df (day_of_week r))
             (group_total day_of_week df (peak_day s)) = false ->
        String.ltb (day_of_week r) (peak_day s) = false)).
Proof.
  intros Hdf Hch Hcd.
  destruct (build_context_summary_ok df Hdf) as (s & Hs & _ & _ & _ & _ & Hd & Hh).
  exists s. split; [done|].
  destruct (idxmax_first_of_ties _ _ (sum_by_comparable hour df Hch)
              (sum_by_ascending hour df) Hh) as (hv & Hhv & Hhm).
  destruct (idxmax_first_of_ties _ _ (sum_by_comparable day_of_week df Hcd)
              (sum_by_ascending day_of_week df) Hd) as (dv & Hdv & Hdm).
  apply elem_of_sum_by in Hhv as [Hhr ->], Hdv as [Hdr ->].
  split; [done|]. split; [|split; [done|]].
  - intros r Hr.
    destruct (Hhm (hour r) (group_total hour df (hour r))) as [H1 H2].
    { apply elem_of_sum_by. eauto. }
    split; [done|]. intros Heq. specialize (H2 Heq).
    unfold less, Z_ord in H2. by apply Z.ltb_ge in H2.
  - intros r Hr.
    destruct (Hdm (day_of_week r) (group_total day_of_week df (day_of_week r)))
      as [H1 H2].
    { apply elem_of_sum_by. eauto. }
    split; [done|]. intros Heq. exact (H2 Heq).
Qed.

End Peaks.

Section Sections.
Import Py Summary.
Context {A : Type} {HA : Arith A} {HS : Sorter A} {HSS : SorterSpec A}.

(** C8, amended.  The summary validates nothing and has no error of its own.
    The only frame with no category is the empty one, and there the summary
    raises [ValueError]; on every other frame it returns a block in which the
    category, merchant and month sections each have a row. *)
Theorem summary_sections_nonempty (df : list (row A)) :
  match df with
  | [] => build_context_summary df = Raise "ValueError"%string
  | _ :: _ =>
      exists s, build_context_summary df = Ok s /\
        cat_lines s <> [] /\ merch_lines s <> [] /\ monthly_lines s <> []
  end.
Proof.
  destruct df as [|r df]; [done|].
  destruct (build_context_summary_ok (r :: df)) as (s & Hs & _ & Hc & Hm & Hy & _);
    [done|].
  exists s. split; [done|]. rewrite Hc, Hm, Hy.
  assert (Hlen : forall X (l : list X), l <> [] -> (0 < length l)%nat).
  { intros X [|x l]; [done|]. simpl. lia. }
  assert (Hnil : forall X (l : list X), (0 < length l)%nat -> l <> []).
  { intros X [|x l]; [simpl; lia|done]. }
  split; [|split]; apply Hnil.
  - rewrite length_map, (Permutation_length (sort_perm _ _ _)).
    by apply Hlen, sum_count_by_nonempty.
  - rewrite length_imap, length_take, (Permutation_length (sort_perm _ _ _)).
    pose proof (Hlen _ _ (sum_by_nonempty merchant (r :: df) ltac:(done))). lia.
  - unfold tail. rewrite length_map, length_drop,
      (Permutation_length (stable_sort_asc_perm _ _)).
    pose proof (Hlen _ _ (sum_by_nonempty (fun r => (year r, month r, month_name r))
                            (r :: df) ltac:(done))). lia.
Qed.

End Sections.

(** ** Sums without rounding *)

Section Weights.
Import Py Summary.
Context {X K : Type} `{EqDecision K}.

Lemma weight_bump (f : K -> Z) (w : Z) (k0 : K) (ks : list K) :
  NoDup ks -> k0 ∈ ks ->
  foldr Z.add 0 (map (fun k => if decide (k0 = k) then w + f k else f k) ks)
  = w + foldr Z.add 0 (map f ks).
Proof.
  induction 1 as [|k ks Hk Hnd IH]; intros Hin; [by apply elem_of_nil in Hin|].
  simpl. destruct (decide (k0 = k)) as [->|Hne].
  - assert (map (fun k' => if decide (k = k') then w + f k' else f k') ks = map f ks) as ->.
    { apply map_ext_in. intros k' Hk'%list_elem_of_In.
      destruct (decide (k = k')) as [->|]; done. }
    lia.
  - apply elem_of_cons in Hin as [?|Hin]; [done|]. rewrite (IH Hin). lia.
Qed.

(** The weights of the groups add up to the weight of the list. *)
Lemma group_weights_total (w : X -> Z) (key : X -> K) (l : list X) (ks : list K) :
  NoDup ks -> (forall x, x ∈ l -> key x ∈ ks) ->
  foldr Z.add 0
    (map (fun k => foldr Z.add 0 (map w (filter (fun x => key x = k) l))) ks)
  = foldr Z.add 0 (map w l).
Proof.
  intros Hnd. induction l as [|x l IH]; intros Hks.
  - clear Hnd Hks. induction ks as [|k ks IHks]; simpl in *; [done|]. by rewrite IHks.
  - simpl. rewrite <- IH by (intros x' Hx'; apply Hks; by right).
    rewrite <- (weight_bump _ (w x) (key x) ks Hnd) by (apply Hks; left).
    f_equal. apply map_ext. intros k. rewrite filter_cons.
    destruct (decide (key x = k)); done.
Qed.

Lemma map_filter_submseteq {Y} (f : X -> Y) (P : X -> Prop) `{forall x, Decision (P x)}
    (l : list X) :
  map f (filter P l) ⊆+ map f l.
Proof.
  induction l as [|x l IH]; simpl; [done|]. rewrite filter_cons.
  destruct (decide (P x)); simpl; [by apply submseteq_skip|by apply submseteq_cons].
Qed.

End Weights.

Section ExactSums.
Import Py Summary.
Context {A : Type} {HA : Arith A} {HC : Comparable A} {HV : Valued A} {HE : ExactValue A}.

Lemma number_value (a : A) (z : Z) : value a = Some z -> number a = z.
Proof. unfold number. by intros ->. Qed.

(** A sum no step of which rounds is the sum of the numbers. *)
Lemma exact_from_value (l : list A) (acc : A) (z : Z) :
  value acc = Some z -> exact_from acc l = true ->
  value (fold_left add l acc) = Some (fold_left Z.add (map number l) z) /\
  Forall (fun a => value a = Some (number a)) l.
Proof.
  revert acc z. induction l as [|x l IH]; intros acc z Hacc Hex; simpl in *; [done|].
  apply andb_prop in Hex as [Hadd Hex]. unfold exact_add in Hadd. rewrite Hacc in Hadd.
  destruct (value x) as [y|] eqn:Hx; [|done].
  destruct (value (add acc x)) as [w|] eqn:Hw; [|done].
  apply Z.eqb_eq in Hadd. subst w.
  destruct (IH _ _ Hw Hex) as [Hv Hall].
  rewrite (number_value x y Hx). split; [done|]. constructor; [|done].
  by rewrite (number_value x y Hx).
Qed.

Lemma series_sum_value (l : list A) :
  exact_from zero l = true ->
  value (series_sum l) = Some (fold_left Z.add (map number l) 0) /\
  Forall (fun a => value a = Some (number a)) l.
Proof. apply exact_from_value, value_zero. Qed.

Lemma adds_exactly_submseteq (l l' : list A) :
  adds_exactly l -> l' ⊆+ l -> adds_exactly l'.
Proof. intros Hl Hsub k Hk. apply Hl. by transitivity l'. Qed.

Lemma adds_exactly_value (l : list A) (a : A) :
  adds_exactly l -> a ∈ l -> value a = Some (number a).
Proof.
  intros Hl Ha. apply singleton_submseteq_l in Ha.
  destruct (series_sum_value [a] (Hl _ Ha)) as [_ Hall].
  by apply Forall_cons in Hall as [Hv _].
Qed.

Lemma adds_exactly_comparable (l : list A) :
  adds_exactly l -> Forall (fun a => comparable a = true) l.
Proof.
  intros Hl. apply Forall_forall. intros a Ha.
  by apply (value_comparable a (number a)), (adds_exactly_value l).
Qed.

(** Such a sum does not depend on the order of its terms. *)
Lemma series_sum_perm (l l1 l2 : list A) :
  adds_exactly l -> l1 ⊆+ l -> l1 ≡ₚ l2 -> series_sum l1 = series_sum l2.
Proof.
  intros Hl H1 Hp.
  assert (H2 : l2 ⊆+ l) by (by rewrite <- Hp).
  destruct (series_sum_value l1 (Hl _ H1)) as [Hv1 _].
  destruct (series_sum_value l2 (Hl _ H2)) as [Hv2 _].
  rewrite (fold_add_perm (map number l1) (map number l2)) in Hv1
    by (by apply Permutation_map).
  exact (value_inj _ _ _ Hv1 Hv2).
Qed.

Lemma series_max_perm (l l' : list A) :
  adds_exactly l -> l ≡ₚ l' -> series_max l = series_max l'.
Proof.
  intros Hl Hp.
  assert (Hl' : adds_exactly l').
  { apply (adds_exactly_submseteq l); [done|]. by rewrite Hp. }
  destruct l as [|x r], l' as [|x' r']; simpl.
  - done.
  - by apply Permutation_nil_cons in Hp.
  - symmetry in Hp. by apply Permutation_nil_cons in Hp.
  - f_equal.
    destruct (series_max_step_in x r (adds_exactly_comparable _ Hl)) as [Hin Hall].
    destruct (series_max_step_in x' r' (adds_exactly_comparable _ Hl')) as [Hin' Hall'].
    simpl in *.
    apply (value_connex _ _ _ _ (adds_exactly_value _ _ Hl Hin)
             (adds_exactly_value _ _ Hl' Hin')).
    + rewrite Hp in Hall. by apply (proj1 (Forall_forall _ _) Hall).
    + rewrite <- Hp in Hall'. by apply (proj1 (Forall_forall _ _) Hall').
Qed.

Section Groups.
Context {K : Type} `{StrictTotal K} `{EqDecision K}.
Implicit Types (df : list (row A)) (key : row A -> K).

Lemma group_total_value key df (k : K) :
  adds_exactly (map amount df) ->
  value (group_total key df k)
  = Some (fold_left Z.add
            (map number (map amount (filter (fun r => key r = k) df))) 0).
Proof.
  intros Hdf. apply series_sum_value, Hdf, map_filter_submseteq.
Qed.

(** The table of group sums does not depend on the order of the rows. *)
Lemma sum_by_perm key df df' :
  adds_exactly (map amount df) -> df ≡ₚ df' -> sum_by key df = sum_by key df'.
Proof.
  intros Hdf Hp. unfold sum_by, groupby. rewrite !map_map. simpl.
  rewrite (group_keys_perm (map key df) (map key df')) by (by apply Permutation_map).
  apply map_ext. intros k. f_equal.
  apply (series_sum_perm (map amount df)); [done|apply map_filter_submseteq|].
  apply Permutation_map. by rewrite Hp.
Qed.

Lemma sum_count_by_perm key df df' :
  adds_exactly (map amount df) -> df ≡ₚ df' ->
  sum_count_by key df = sum_count_by key df'.
Proof.
  intros Hdf Hp. unfold sum_count_by, groupby. rewrite !map_map. simpl.
  rewrite (group_keys_perm (map key df) (map key df')) by (by apply Permutation_map).
  apply map_ext. intros k.
  assert (Hf : filter (fun r => key r = k) df ≡ₚ filter (fun r => key r = k) df')
    by (by rewrite Hp).
  f_equal; [f_equal|].
  - apply (series_sum_perm (map amount df)); [done|apply map_filter_submseteq|].
    by apply Permutation_map.
  - f_equal. by apply Permutation_length.
Qed.

(** The numbers of the group sums add up to the number of the sum of the
    column. *)
Lemma sum_count_by_numbers key df :
  adds_exactly (map amount df) ->
  fold_left Z.add (map (fun g => number (snd (fst g))) (sum_count_by key df)) 0
  = fold_left Z.add (map number (map amount df)) 0.
Proof.
  intros Hdf. rewrite !fold_left_Zadd, !Z.add_0_l.
  unfold sum_count_by, groupby. rewrite !map_map. simpl.
  rewrite <- (group_weights_total (fun r => number (amount r)) key df
                (group_keys (map key df))).
  - f_equal. apply map_ext. intros k.
    pose proof (number_value _ _ (group_total_value key df k Hdf)) as Hn.
    unfold group_total in Hn. by rewrite Hn, fold_left_Zadd, Z.add_0_l, map_map.
  - apply ascending_NoDup, group_keys_ascending.
  - intros r Hr. apply elem_of_group_keys, list_elem_of_In, in_map, list_elem_of_In, Hr.
Qed.

Lemma sum_by_value key df :
  adds_exactly (map amount df) ->
  Forall (fun x => value (snd x) = Some (number (snd x))) (sum_by key df).
Proof.
  intros Hdf. apply Forall_forall. intros [k v] [_ ->]%elem_of_sum_by. simpl.
  rewrite (group_total_value key df k Hdf). f_equal. symmetry.
  apply number_value, group_total_value, Hdf.
Qed.

Lemma sum_count_by_value key df :
  adds_exactly (map amount df) ->
  Forall (fun x => value (snd (fst x)) = Some (number (snd (fst x))))
         (sum_count_by key df).
Proof.
  intros Hdf. unfold sum_count_by, groupby. rewrite map_map. simpl.
  apply Forall_forall. intros x (k & <- & _)%list_elem_of_In%in_map_iff. simpl.
  change (series_sum _) with (group_total key df k).
  rewrite (group_total_value key df k Hdf). f_equal. symmetry.
  apply number_value, group_total_value, Hdf.
Qed.

End Groups.

Context {HS : Sorter A} {HSS : SorterSpec A}.

(** When the amounts add without rounding, the summary of a frame is the
    summary of any reordering of its rows. *)
Lemma build_context_summary_perm (df df' : list (row A)) :
  adds_exactly (map amount df) -> df ≡ₚ df' ->
  build_context_summary df = build_context_summary df'.
Proof.
  intros Hdf Hp. unfold build_context_summary, series_mean.
  rewrite (series_sum_perm (map amount df) (map amount df) (map amount df'))
    by (done || by apply Permutation_map).
  rewrite (series_max_perm (map amount df) (map amount df'))
    by (done || by apply Permutation_map).
  rewrite (ts_min_perm (map datetime df) (map datetime df')) by (by apply Permutation_map).
  rewrite (ts_max_perm (map datetime df) (map datetime df')) by (by apply Permutation_map).
  rewrite (fold_add_perm (map is_fraud df) (map is_fraud df')) by (by apply Permutation_map).
  rewrite !length_map, (Permutation_length Hp).
  rewrite (sum_count_by_perm spending_category df df' Hdf Hp).
  rewrite (sum_by_perm merchant df df' Hdf Hp).
  rewrite (sum_by_perm (fun r => (year r, month r, month_name r)) df df' Hdf Hp).
  rewrite (sum_by_perm day_of_week df df' Hdf Hp).
  by rewrite (sum_by_perm hour df df' Hdf Hp).
Qed.

(** A stable sort of a table in ascending order of names, whose totals are
    numbers, leaves rows of equal total in ascending order of names. *)
Lemma sort_values_ties_by_name {R} (total : R -> A) (name : R -> string) (t : list R) :
  StableSorter A ->
  Forall (fun r => value (total r) = Some (number (total r))) t ->
  StronglySorted (fun a b => less (name a) (name b) = true) t ->
  StronglySorted (total_desc_name_asc total name) (sort_values_desc total t).
Proof.
  intros Hstable Hv Ht.
  assert (Hc : Forall (fun r => comparable (total r) = true) t).
  { eapply Forall_impl; [exact Hv|]. intros r Hr. exact (value_comparable _ _ Hr). }
  assert (Hv' : Forall (fun r => value (total r) = Some (number (total r)))
                       (sort_values_desc total t)) by (by rewrite sort_perm).
  assert (Hsorted : StronglySorted
            (fun a b => (value (total a) = Some (number (total a)) /\
                         value (total b) = Some (number (total b))) /\
                        less (total a) (total b) = false /\
                        forall v, comparable v = true ->
                                  tie (total a) v = true -> tie (total b) v = true ->
                                  less (name a) (name b) = true)
            (sort_values_desc total t)).
  { pose proof (sort_desc _ total t) as Hd. revert Hv'.
    assert (Hq : forall v, comparable v = true ->
              StronglySorted (fun a b => less (name a) (name b) = true)
                (filter (fun r => tie (total r) v = true) (sort_values_desc total t))).
    { intros v Hcv. rewrite sort_stable by done. by apply StronglySorted_filter. }
    revert Hq. induction Hd as [|x l Hs IH Hx]; intros Hq Hv'; constructor.
    - apply IH; [|by apply Forall_cons in Hv' as [_ ?]].
      intros v Hcv. specialize (Hq v Hcv). rewrite filter_cons in Hq.
      destruct (decide (tie (total x) v = true)); [by inversion Hq|done].
    - apply Forall_cons in Hv' as [Hvx Hvl].
      apply Forall_forall. intros y Hy. split; [|split].
      + split; [done|]. by apply (proj1 (Forall_forall _ _) Hvl).
      + by apply (proj1 (Forall_forall _ _) Hx).
      + intros v Hcv Hvx' Hvy. specialize (Hq v Hcv). rewrite filter_cons in Hq.
        destruct (decide (tie (total x) v = true)); [|done].
        inversion Hq as [|? ? _ Hall]; subst.
        apply (proj1 (Forall_forall _ _) Hall). by apply list_elem_of_filter. }
  eapply StronglySorted_weaken; [|exact Hsorted].
  intros a b ([Hva Hvb] & Hab & Hq). unfold total_desc_name_asc.
  destruct (less (total b) (total a)) eqn:Hba; [by left|right].
  pose proof (value_connex _ _ _ _ Hva Hvb Hab Hba) as Heq. split; [done|].
  apply (Hq (total a)).
  - exact (value_comparable _ _ Hva).
  - unfold tie. by rewrite weak_irrefl.
  - unfold tie. by rewrite <- Heq, weak_irrefl.
Qed.

(** C7, amended.  When the amounts of the frame add without rounding, every
    category total is a number and the total spend of the overview is the
    number they add up to; the binary64 sum of the category totals is the
    total spend itself when adding them does not round either. *)
Theorem category_totals_add_up (df : list (row A)) :
  df <> [] -> adds_exactly (map amount df) ->
  exists s, build_context_summary df = Ok s /\
    Forall (fun l => value (cat_total l) = Some (number (cat_total l))) (cat_lines s) /\
    value (total_spend s)
      = Some (fold_left Z.add (map (fun l => number (cat_total l)) (cat_lines s)) 0) /\
    (exact_from zero (map cat_total (cat_lines s)) = true ->
     series_sum (map cat_total (cat_lines s)) = total_spend s).
Proof.
  intros Hdf Hex.
  destruct (build_context_summary_ok df Hdf) as (s & Hs & Ht & Hc & _).
  exists s. split; [done|].
  assert (Hnum : value (total_spend s)
            = Some (fold_left Z.add (map (fun l => number (cat_total l)) (cat_lines s)) 0)).
  { rewrite Ht, Hc, map_map. unfold cat_total. simpl.
    destruct (series_sum_value (map amount df)) as [-> _]; [by apply Hex|]. f_equal.
    rewrite <- (sum_count_by_numbers spending_category df Hex).
    apply fold_add_perm. symmetry.
    apply (Permutation_map (fun g : string * A * Z => number (snd (fst g)))), sort_perm. }
  split; [|split; [done|]].
  - rewrite Hc. apply Forall_forall.
    intros l (g & <- & Hg)%list_elem_of_In%in_map_iff. unfold cat_total. simpl.
    apply list_elem_of_In in Hg. rewrite sort_perm in Hg.
    exact (proj1 (Forall_forall _ _) (sum_count_by_value spending_category df Hex) g Hg).
  - intros Hcat. destruct (series_sum_value _ Hcat) as [Hv _].
    rewrite map_map in Hv. exact (value_inj _ _ _ Hv Hnum).
Qed.

(** C5, amended.  When the amounts of the frame add without rounding, every
    reordering of a non-empty frame has the same summary.  Its category and
    merchant rows are in descending order of total; rows of equal total are
    in ascending order of name whenever the sort of [sort_values] is
    stable. *)
Theorem summary_order_independent (df df' : list (row A)) :
  df <> [] -> df ≡ₚ df' -> adds_exactly (map amount df) ->
  exists s,
    build_context_summary df = Ok s /\
    build_context_summary df' = Ok s /\
    StronglySorted (fun a b => less (cat_total a) (cat_total b) = false) (cat_lines s) /\
    StronglySorted (fun a b => less (merch_spend a) (merch_spend b) = false)
                   (merch_lines s) /\
    (StableSorter A ->
     StronglySorted (total_desc_name_asc cat_total cat_name) (cat_lines s) /\
     StronglySorted (total_desc_name_asc merch_spend merch_name) (merch_lines s)).
Proof.
  intros Hdf Hp Hex.
  destruct (build_context_summary_ok df Hdf) as (s & Hs & _ & Hc & Hm & _).
  exists s. split; [done|].
  split; [by rewrite <- (build_context_summary_perm df df' Hex Hp)|].
  rewrite Hc, Hm. split; [|split; [|intros Hstable; split]].
  - apply StronglySorted_map. simpl. apply sort_desc.
  - eapply StronglySorted_imap; [|apply StronglySorted_take, sort_desc].
    intros i j x y Hxy. exact Hxy.
  - apply StronglySorted_map.
    apply (sort_values_ties_by_name (fun r => snd (fst r)) (fun r => fst (fst r)));
      [done|by apply sum_count_by_value|]. apply sum_count_by_ascending.
  - eapply StronglySorted_imap;
      [|apply StronglySorted_take, (sort_values_ties_by_name snd fst);
        [done|by apply sum_by_value|apply sum_by_ascending]].
    intros i j x y Hxy. exact Hxy.
Qed.

End ExactSums.

(** ** Binary64 and the integers meet the laws *)

Section Binary64.
Import SpecFloat FloatOps FloatAxioms.
Import Py Summary.

Ltac compare_cases :=
  repeat match goal with
  | H : context [Z.compare ?a ?b] |- _ => destruct (Z.compare_spec a b)
  | |- context [Z.compare ?a ?b] => destruct (Z.compare_spec a b)
  | H : context [Pos.compare_cont Eq ?a ?b] |- _ =>
      change (Pos.compare_cont Eq a b) with (Pos.compare a b) in *;
      destruct (Pos.compare_spec a b)
  | |- context [Pos.compare_cont Eq ?a ?b] =>
      change (Pos.compare_cont Eq a b) with (Pos.compare a b) in *;
      destruct (Pos.compare_spec a b)
  end.

Ltac order_cases :=
  cbn in *; compare_cases; cbn in *; subst; try discriminate; try reflexivity; try lia.

Lemma SFltb_irrefl (x : spec_float) : SFltb x x = false.
Proof. unfold SFltb. destruct x as [[|]|[|]| |[|] m e]; order_cases. Qed.

Lemma SFltb_trans (x y z : spec_float) :
  SFltb x y = true -> SFltb y z = true -> SFltb x z = true.
Proof.
  unfold SFltb.
  destruct x as [[|]|[|]| |[|] mx ex], y as [[|]|[|]| |[|] my ey],
           z as [[|]|[|]| |[|] mz ez]; order_cases.
Qed.

Lemma SFltb_neg_trans (x y z : spec_float) :
  SFeqb y y = true -> SFltb x y = false -> SFltb y z = false -> SFltb x z = false.
Proof.
  unfold SFltb, SFeqb.
  destruct x as [[|]|[|]| |[|] mx ex], y as [[|]|[|]| |[|] my ey],
           z as [[|]|[|]| |[|] mz ez]; order_cases.
Qed.

Lemma SFltb_comparable (x y : spec_float) :
  SFltb x y = true -> SFeqb x x = true /\ SFeqb y y = true.
Proof.
  unfold SFltb, SFeqb.
  destruct x as [[|]|[|]| |[|] mx ex], y as [[|]|[|]| |[|] my ey];
    order_cases; split; order_cases.
Qed.

Lemma SFltb_connex (x y : spec_float) (a b : Z) :
  spec_value x = Some a -> spec_value y = Some b ->
  SFltb x y = false -> SFltb y x = false -> x = y.
Proof.
  unfold SFltb.
  destruct x as [[|]|[|]| |[|] mx ex], y as [[|]|[|]| |[|] my ey]; order_cases.
Qed.

Lemma spec_value_comparable (x : spec_float) (z : Z) :
  spec_value x = Some z -> SFeqb x x = true.
Proof. unfold SFeqb. destruct x as [[|]|[|]| |[|] m e]; order_cases. Qed.

Lemma digits2_log2 (m : positive) : Zpos (digits2_pos m) = Z.log2 (Zpos m) + 1.
Proof.
  assert (Hsize : forall p, digits2_pos p = Pos.size p).
  { induction p as [p IH|p IH|]; simpl; by rewrite ?IH. }
  rewrite Hsize. destruct m; simpl; lia.
Qed.

(** The exponent of a finite binary64 value is the one its mantissa calls
    for: no number has two representations. *)
Lemma canonical_exponent (s : bool) (m : positive) (e : Z) :
  valid_binary (S754_finite s m e) = true ->
  e = Z.max (Z.log2 (Zpos m) + 1 + e - 53) (-1074).
Proof.
  unfold valid_binary, SpecFloat.valid_binary, bounded, canonical_mantissa, fexp,
    SpecFloat.emin.
  intros [Hc _]%andb_prop. apply Z.eqb_eq in Hc. rewrite digits2_log2 in Hc.
  unfold prec, emax in Hc. lia.
Qed.

Lemma canonical_unique (m1 m2 : positive) (e1 e2 : Z) :
  e1 = Z.max (Z.log2 (Zpos m1) + 1 + e1 - 53) (-1074) ->
  e2 = Z.max (Z.log2 (Zpos m2) + 1 + e2 - 53) (-1074) ->
  Zpos m1 * 2 ^ (e1 + 1074) = Zpos m2 * 2 ^ (e2 + 1074) ->
  m1 = m2 /\ e1 = e2.
Proof.
  intros H1 H2 Heq.
  assert (Hl : Z.log2 (Zpos m1) + e1 = Z.log2 (Zpos m2) + e2).
  { apply (f_equal Z.log2) in Heq.
    rewrite !Z.log2_mul_pow2 in Heq by lia. lia. }
  assert (He : e1 = e2) by lia. subst e2. split; [|reflexivity].
  apply Z.mul_cancel_r in Heq; [congruence|].
  apply Z.pow_nonzero; lia.
Qed.

Lemma spec_value_inj (x y : spec_float) (z : Z) :
  valid_binary x = true -> valid_binary y = true ->
  spec_value x = Some z -> spec_value y = Some z -> x = y.
Proof.
  intros Hx Hy.
  destruct x as [[|]|[|]| |sx mx ex], y as [[|]|[|]| |sy my ey]; simpl;
    try discriminate; try reflexivity.
  - intros [= <-] [= Hz]. exfalso.
    apply canonical_exponent in Hy.
    apply Z.mul_eq_0 in Hz as [Hz|Hz]; [destruct sy; unfold signed in Hz; lia|].
    apply Z.pow_nonzero in Hz; [done|lia|lia].
  - intros [= Hz] [= <-]. exfalso.
    apply canonical_exponent in Hx.
    apply Z.mul_eq_0 in Hz as [Hz|Hz]; [destruct sx; unfold signed in Hz; lia|].
    apply Z.pow_nonzero in Hz; [done|lia|lia].
  - intros [= <-] [= Hz].
    apply canonical_exponent in Hx, Hy.
    assert (0 < Zpos mx * 2 ^ (ex + 1074)).
    { apply Z.mul_pos_pos; [lia|]. apply Z.pow_pos_nonneg; lia. }
    assert (0 < Zpos my * 2 ^ (ey + 1074)).
    { apply Z.mul_pos_pos; [lia|]. apply Z.pow_pos_nonneg; lia. }
    destruct sx, sy; unfold signed in Hz.
    + change (Zneg my) with (- Zpos my) in Hz. change (Zneg mx) with (- Zpos mx) in Hz.
      rewrite !Z.mul_opp_l in Hz. apply Z.opp_inj in Hz.
      by destruct (canonical_unique mx my ex ey Hx Hy (eq_sym Hz)) as [-> ->].
    + exfalso. change (Zneg mx) with (- Zpos mx) in Hz. lia.
    + exfalso. change (Zneg my) with (- Zpos my) in Hz. lia.
    + by destruct (canonical_unique mx my ex ey Hx Hy (eq_sym Hz)) as [-> ->].
Qed.

#[export] Instance float_weak_order : WeakOrder PrimFloat.float.
Proof.
  split; unfold less, comparable, float_ord, float_comparable.
  - intros a b. rewrite ltb_spec, !eqb_spec. apply SFltb_comparable.
  - intros a. rewrite ltb_spec. apply SFltb_irrefl.
  - intros a b c. rewrite !ltb_spec. apply SFltb_trans.
  - intros a b c. rewrite !ltb_spec, eqb_spec. apply SFltb_neg_trans.
Qed.

#[export] Instance float_exact_value : ExactValue PrimFloat.float.
Proof.
  split.
  - vm_compute. reflexivity.
  - intros a b z Ha Hb. apply Prim2SF_inj.
    exact (spec_value_inj _ _ z (Prim2SF_valid a) (Prim2SF_valid b) Ha Hb).
  - intros a z Ha. unfold comparable, float_comparable. rewrite eqb_spec.
    exact (spec_value_comparable _ _ Ha).
  - intros a b x y Ha Hb. unfold less. simpl. unfold float_ord.
    rewrite !ltb_spec. intros Hab Hba.
    apply Prim2SF_inj. exact (SFltb_connex _ _ x y Ha Hb Hab Hba).
  - apply float_weak_order.
Qed.

#[export] Instance Z_weak_order : WeakOrder Z.
Proof.
  split; unfold less, comparable, Z_ord, Z_comparable; intros;
    rewrite ?Z.ltb_lt, ?Z.ltb_ge in *; try done; lia.
Qed.

#[export] Instance Z_exact_value : ExactValue Z.
Proof.
  split.
  - reflexivity.
  - intros a b z [= ->] [= ->]. reflexivity.
  - reflexivity.
  - intros a b x y _ _. unfold less. simpl. unfold Z_ord.
    rewrite !Z.ltb_ge. lia.
  - apply Z_weak_order.
Qed.

End Binary64.

Section ExactCheck.
Import Py Summary.

Lemma elem_of_sublists {X} (l1 l2 : list X) : l1 `sublist_of` l2 -> l1 ∈ sublists l2.
Proof.
  induction 1 as [|x l1 l2 _ IH|x l1 l2 _ IH]; simpl.
  - left.
  - apply elem_of_app. left. apply list_elem_of_In, in_map, list_elem_of_In, IH.
  - apply elem_of_app. by right.
Qed.

Lemma elem_of_orderings {X} (l1 l2 : list X) : l1 ⊆+ l2 -> l1 ∈ orderings l2.
Proof.
  intros (k & Hp & Hk)%submseteq_sublist_r. unfold orderings.
  apply list_elem_of_In, in_concat. exists (permutations k). split.
  - apply in_map, list_elem_of_In, elem_of_sublists, Hk.
  - apply list_elem_of_In, permutations_Permutation. by symmetry.
Qed.

(** The check of the orderings one by one decides [adds_exactly]. *)
Lemma adds_exactly_check_sound {A} `{Arith A, Valued A} (l : list A) :
  adds_exactly_check l = true -> adds_exactly l.
Proof.
  unfold adds_exactly_check. intros Hall l' Hl'.
  apply (proj1 (forallb_forall _ _) Hall), list_elem_of_In, elem_of_orderings, Hl'.
Qed.

End ExactCheck.

(** ** The two instances *)

Section Instances.
Import PrimFloat.
Import Py Summary.
Local Open Scope string_scope.


Lemma insert_asc_sorted {K R} `{StrictTotal K} (key : R -> K) (x : R) (l : list R) :
  StronglySorted (fun a b => less (key b) (key a) = false) l ->
  StronglySorted (fun a b => less (key b) (key a) = false) (insert_asc key x l).
Proof.
  induction 1 as [|y l Hs IH Hy]; simpl; [repeat constructor|].
  destruct (less (key y) (key x)) eqn:Hyx.
  - constructor; [done|]. rewrite insert_asc_perm.
    constructor; [|done]. by apply less_asym.
  - constructor; [by constructor|]. constructor; [done|].
    eapply Forall_impl; [exact Hy|]. intros z Hz. simpl in *.
    by apply (not_less_trans _ (key y)).
Qed.

Lemma StronglySorted_rev {X} (R : X -> X -> Prop) (l : list X) :
  StronglySorted R l -> StronglySorted (fun a b => R b a) (rev l).
Proof.
  induction 1 as [|x l Hs IH Hx]; simpl; [constructor|].
  apply StronglySorted_app_2; [|done|repeat constructor].
  intros a b Ha%list_elem_of_In%in_rev%list_elem_of_In ->%list_elem_of_singleton.
  by apply (proj1 (Forall_forall _ _) Hx).
Qed.

(** The reversing sort also meets what [sort_values] promises. *)
#[export] Instance reversing_sorter_spec {A} `{StrictTotal A} :
  @SorterSpec A _ (reversing_sorter A).
Proof.
  split; intros R key l; unfold sort_values_desc, reversing_sorter.
  - by rewrite <- Permutation_rev, stable_sort_asc_perm.
  - apply (StronglySorted_rev (fun a b => less (key b) (key a) = false)).
    unfold stable_sort_asc. induction l as [|x l IH]; simpl; [constructor|].
    by apply insert_asc_sorted.
Qed.


Lemma float_neq (x y : PrimFloat.float) :
  PrimFloat.eqb x y = false -> PrimFloat.eqb y y = true -> x <> y.
Proof. intros Hxy Hyy ->. by rewrite Hyy in Hxy. Qed.

(** C4 as stated fails: the error of the empty frame is not an
    [EmptyDatasetError]. *)
Lemma empty_frame_error_is_not_EmptyDatasetError :
  build_context_summary (HS := stable_sorter PrimFloat.float) [] = Raise "ValueError" /\
  build_context_summary (HS := stable_sorter PrimFloat.float) []
    <> Raise "EmptyDatasetError".
Proof. split; [reflexivity|discriminate]. Qed.

(** C8 as stated fails: the frame with no category makes the summary raise,
    and the error is not a [MalformedReportError]. *)
Lemma empty_category_list_error_is_not_MalformedReportError :
  sum_count_by spending_category ([] : list (row PrimFloat.float)) = [] /\
  build_context_summary (HS := stable_sorter PrimFloat.float) []
    <> Raise "MalformedReportError".
Proof. split; [reflexivity|discriminate]. Qed.

Lemma summary_sections_nonempty_witness :
  exists s, build_context_summary (HS := stable_sorter Z) cents_frame = Ok s /\
    cat_lines s <> [] /\ merch_lines s <> [] /\ monthly_lines s <> [].
Proof. exact (summary_sections_nonempty (HA := Z_arith) (HS := stable_sorter Z) cents_frame). Defined.

(** C7 as stated fails in binary64: the overview adds 1e16 + 1 + 1 from the
    left and gets 1e16, the category totals 1e16 and 2 add up to 1e16 + 2. *)
Lemma category_totals_differ_in_binary64 :
  exists s,
    build_context_summary (HS := stable_sorter PrimFloat.float) float_frame = Ok s /\
    total_spend s = 1e16%float /\
    map cat_total (cat_lines s) = [1e16%float; 2%float] /\
    series_sum (map cat_total (cat_lines s)) = 10000000000000002%float /\
    series_sum (map cat_total (cat_lines s)) <> total_spend s.
Proof.
  eexists. split; [vm_compute; reflexivity|].
  repeat split; try (vm_compute; reflexivity).
  apply float_neq; vm_compute; reflexivity.
Qed.

(** The amounts of [exact_frame] add without rounding; those of
    [float_frame] do not. *)
Lemma exact_frame_adds_exactly : adds_exactly (map amount exact_frame).
Proof. apply adds_exactly_check_sound. vm_compute. reflexivity. Defined.

Lemma float_frame_rounds : ~ adds_exactly (map amount float_frame).
Proof.
  intros Hex. specialize (Hex (map amount float_frame) (reflexivity _)).
  vm_compute in Hex. discriminate.
Qed.

Lemma category_totals_add_up_witness :
  exact_frame <> [] /\ adds_exactly (map amount exact_frame) /\
  exists s, build_context_summary (HS := na_last_sorter float) exact_frame = Ok s /\
    Forall (fun l => value (cat_total l) = Some (number (cat_total l))) (cat_lines s) /\
    value (total_spend s)
      = Some (fold_left Z.add (map (fun l => number (cat_total l)) (cat_lines s)) 0) /\
    (exact_from zero (map cat_total (cat_lines s)) = true ->
     series_sum (map cat_total (cat_lines s)) = total_spend s).
Proof.
  split; [discriminate|]. split; [exact exact_frame_adds_exactly|].
  apply (category_totals_add_up (HA := float_arith) (HS := na_last_sorter float)
           exact_frame); [discriminate|exact exact_frame_adds_exactly].
Defined.

(** On [exact_frame] adding the category totals does not round either: the
    binary64 sum of the category totals is the total spend, 201. *)
Example exact_frame_totals :
  match build_context_summary (HS := na_last_sorter float) exact_frame with
  | Ok s => (map cat_total (cat_lines s),
             exact_from zero (map cat_total (cat_lines s)),
             series_sum (map cat_total (cat_lines s)), total_spend s)
  | Raise _ => ([], false, zero, zero)
  end = ([100.5; 50.25; 50.25]%float, true, 201%float, 201%float).
Proof. vm_compute. reflexivity. Qed.

(** C5 as stated fails in binary64: the same rows in another order have
    another total spend. *)
Lemma summary_depends_on_row_order_in_binary64 :
  float_frame ≡ₚ float_frame_reordered /\
  build_context_summary (HS := stable_sorter PrimFloat.float) float_frame
  <> build_context_summary (HS := stable_sorter PrimFloat.float) float_frame_reordered.
Proof.
  split.
  - unfold float_frame, float_frame_reordered.
    etransitivity; [apply Permutation_swap|]. apply Permutation_skip, Permutation_swap.
  - intros Heq.
    apply (f_equal (fun r => match r with
                             | Ok s => PrimFloat.eqb (total_spend s) 1e16%float
                             | Raise _ => false
                             end)) in Heq.
    vm_compute in Heq. discriminate.
Qed.

Lemma exact_frame_perm : exact_frame ≡ₚ exact_frame_reordered.
Proof. apply Permutation_swap. Defined.

Lemma summary_order_independent_witness :
  exact_frame <> [] /\ exact_frame ≡ₚ exact_frame_reordered /\
  adds_exactly (map amount exact_frame) /\
  exists s,
    build_context_summary (HS := na_last_sorter float) exact_frame = Ok s /\
    build_context_summary (HS := na_last_sorter float) exact_frame_reordered = Ok s /\
    StronglySorted (fun a b => less (cat_total a) (cat_total b) = false) (cat_lines s) /\
    StronglySorted (fun a b => less (merch_spend a) (merch_spend b) = false)
                   (merch_lines s) /\
    StronglySorted (total_desc_name_asc cat_total cat_name) (cat_lines s) /\
    StronglySorted (total_desc_name_asc merch_spend merch_name) (merch_lines s).
Proof.
  split; [discriminate|]. split; [exact exact_frame_perm|].
  split; [exact exact_frame_adds_exactly|].
  destruct (summary_order_independent (HA := float_arith) (HS := na_last_sorter float)
              exact_frame exact_frame_reordered)
    as (s & H1 & H2 & H3 & H4 & H5);
    [discriminate|exact exact_frame_perm|exact exact_frame_adds_exactly|].
  exists s. repeat (split; [assumption|]).
  apply H5, na_last_sorter_stable.
Defined.

(** The order of rows of equal total is the sort's: two sorts that both meet
    the promise of [sort_values] order the two tying merchants differently. *)
Example tie_order_follows_the_sort :
  match build_context_summary (HS := stable_sorter Z) cents_frame with
  | Ok s => map merch_name (merch_lines s)
  | Raise _ => []
  end = ["Kirlin and Sons"; "Bins-Rice"; "Rau-Robel"] /\
  match build_context_summary (HS := reversing_sorter Z) cents_frame with
  | Ok s => map merch_name (merch_lines s)
  | Raise _ => []
  end = ["Kirlin and Sons"; "Rau-Robel"; "Bins-Rice"].
Proof. split; vm_compute; reflexivity. Qed.

(** C9 as stated fails: Monday and Friday tie, Monday is the earlier day of
    the week, and the peak day is Friday. *)
Lemma peak_day_is_not_monday_first :
  exists s,
    build_context_summary (HS := stable_sorter PrimFloat.float) two_day_frame = Ok s /\
    sum_by day_of_week two_day_frame = [("Friday", 10%float); ("Monday", 10%float)] /\
    (week_index "Monday" < week_index "Friday")%nat /\
    peak_day s = "Friday" /\ peak_day s <> "Monday".
Proof.
  eexists. split; [vm_compute; reflexivity|].
  repeat split; try (vm_compute; reflexivity).
  - vm_compute. lia.
  - discriminate.
Qed.

Lemma two_day_frame_hours (r : row float) :
  r ∈ two_day_frame -> comparable (group_total hour two_day_frame (hour r)) = true.
Proof.
  unfold two_day_frame. intros Hr.
  repeat (apply elem_of_cons in Hr as [->|Hr]; [vm_compute; reflexivity|]).
  by apply elem_of_nil in Hr.
Defined.

Lemma two_day_frame_days (r : row float) :
  r ∈ two_day_frame ->
  comparable (group_total day_of_week two_day_frame (day_of_week r)) = true.
Proof.
  unfold two_day_frame. intros Hr.
  repeat (apply elem_of_cons in Hr as [->|Hr]; [vm_compute; reflexivity|]).
  by apply elem_of_nil in Hr.
Defined.

Lemma peak_tie_break_witness :
  two_day_frame <> [] /\
  exists s,
    build_context_summary (HS := stable_sorter float) two_day_frame = Ok s /\
    (exists r, r ∈ two_day_frame /\ hour r = peak_hour s) /\
    (forall r, r ∈ two_day_frame ->
       less (group_total hour two_day_frame (peak_hour s))
            (group_total hour two_day_frame (hour r)) = false /\
       (less (group_total hour two_day_frame (hour r))
             (group_total hour two_day_frame (peak_hour s)) = false ->
        peak_hour s <= hour r)) /\
    (exists r, r ∈ two_day_frame /\ day_of_week r = peak_day s) /\
    (forall r, r ∈ two_day_frame ->
       less (group_total day_of_week two_day_frame (peak_day s))
            (group_total day_of_week two_day_frame (day_of_week r)) = false /\
       (less (group_total day_of_week two_day_frame (day_of_week r))
             (group_total day_of_week two_day_frame (peak_day s)) = false ->
        String.ltb (day_of_week r) (peak_day s) = false)).
Proof.
  split; [discriminate|].
  apply (peak_tie_break (HA := float_arith) (HS := stable_sorter float) two_day_frame);
    [discriminate|exact two_day_frame_hours|exact two_day_frame_days].
Defined.

Example cents_frame_peaks :
  match build_context_summary (HS := stable_sorter Z) cents_frame with
  | Ok s => (peak_day s, peak_hour s)
  | Raise _ => ("", 0)
  end = ("Friday", 9).
Proof. vm_compute. reflexivity. Qed.

End Instances.

(** ** More on FinSightAgent: windows, conversations, clear_history, build_agent *)

Section Conversations.
Import Py Agent AgentSetup.

Lemma length_trimmed_history (self : FinSightAgent) :
  0 < max_turns self ->
  length (trimmed_history self)
    = Nat.min (length (history self)) (Z.to_nat (2 * max_turns self)).
Proof.
  intros Hm. unfold trimmed_history, slice_from.
  destruct (Z.gtb_spec (Z.of_nat (length (history self))) (max_turns self * 2)).
  - destruct (Z.ltb_spec (- (max_turns self * 2)) 0); [|lia].
    rewrite length_drop. lia.
  - lia.
Qed.

(** X1. For a positive [max_turns] and any stored history the window of
    [ask] is the end of the history and holds [min (len history) (2 * max_turns)]
    messages. *)
Theorem trimmed_history_is_recent_suffix (self : FinSightAgent) :
  0 < max_turns self ->
  trimmed_history self `suffix_of` history self /\
  length (trimmed_history self)
    = Nat.min (length (history self)) (Z.to_nat (2 * max_turns self)).
Proof.
  intros Hm. split; [|by apply length_trimmed_history].
  unfold trimmed_history, slice_from.
  destruct (Z.of_nat (length (history self)) >? max_turns self * 2); [|done].
  apply suffix_drop.
Qed.

Lemma trimmed_history_is_recent_suffix_witness :
  0 < max_turns (Build_Agent always_ok (messages_of_turns [(lit "a", lit "b")]) 10) /\
  trimmed_history (Build_Agent always_ok (messages_of_turns [(lit "a", lit "b")]) 10)
    `suffix_of` messages_of_turns [(lit "a", lit "b")] /\
  length (trimmed_history (Build_Agent always_ok (messages_of_turns [(lit "a", lit "b")]) 10))
    = Nat.min 2 20.
Proof.
  split; [reflexivity|].
  apply (trimmed_history_is_recent_suffix
           (Build_Agent always_ok (messages_of_turns [(lit "a", lit "b")]) 10)).
  reflexivity.
Defined.

(** One call of [ask], case by case. *)
Lemma ask_step (self : FinSightAgent) (served : list request) (q : str) :
  let '(res, self', served') := ask self served q in
  chain self' = chain self /\ max_turns self' = max_turns self /\
  if truthy (strip q)
  then served' = served ++ [Request (trimmed_history self) q] /\
       history self' = history self ++
         match res with Ok r => turn_messages (q, r) | Raise _ => [] end
  else served' = served /\ history self' = history self.
Proof.
  unfold ask. destruct (truthy (strip q)); simpl; [|done].
  destruct (chain self served _); simpl; by rewrite ?app_nil_r.
Qed.

Lemma ask_each_cons (self : FinSightAgent) (served : list request) (q : str)
    (qs : list str) :
  ask_each self served (q :: qs)
  = ask_each (ask self served q).1.2 (ask self served q).2 qs.
Proof. simpl. by destruct (ask self served q) as [[res a] s]. Qed.

(** X2. Whatever is asked, blank or not, answered or failed, the stored
    history only grows, and by whole turns: a question with its reply, for
    some of the non-blank questions, in the order they were asked.  [chain]
    and [max_turns] stay as they were. *)
Theorem ask_each_history_append_only (self : FinSightAgent) (served : list request)
    (questions : list str) :
  exists turns,
    history (ask_each self served questions).1 = history self ++ messages_of_turns turns /\
    map fst turns `sublist_of` filter (fun q => truthy (strip q) = true) questions /\
    chain (ask_each self served questions).1 = chain self /\
    max_turns (ask_each self served questions).1 = max_turns self.
Proof.
  revert self served. induction questions as [|q qs IH]; intros self served.
  - exists []. simpl. by rewrite app_nil_r.
  - rewrite ask_each_cons. pose proof (ask_step self served q) as Hstep.
    destruct (ask self served q) as [[res a] s]. simpl.
    destruct Hstep as (Hc & Hm & Hq).
    destruct (IH a s) as (ts & Hh & Hsub & Hc' & Hm').
    rewrite Hc', Hm', Hh, filter_cons.
    destruct (truthy (strip q)) eqn:Hb.
    + destruct Hq as [_ Hq]. rewrite Hq, decide_True by done.
      destruct res as [r|e].
      * exists ((q, r) :: ts). rewrite <- app_assoc. repeat split; try done.
        simpl. by apply sublist_skip.
      * exists ts. rewrite app_nil_r. repeat split; try done.
        by apply sublist_cons.
    + destruct Hq as [_ Hq]. rewrite Hq, decide_False by done. by exists ts.
Qed.

(** The requests of a conversation. *)
Lemma ask_each_requests (self : FinSightAgent) (served : list request)
    (questions : list str) :
  exists new,
    (ask_each self served questions).2 = served ++ new /\
    map req_input new = filter (fun q => truthy (strip q) = true) questions /\
    Forall (fun r => 0 < max_turns self ->
              Z.of_nat (length (req_history r)) <= 2 * max_turns self) new.
Proof.
  revert self served. induction questions as [|q qs IH]; intros self served.
  - exists []. simpl. by rewrite app_nil_r.
  - rewrite ask_each_cons. pose proof (ask_step self served q) as Hstep.
    destruct (ask self served q) as [[res a] s]. simpl.
    destruct Hstep as (Hc & Hm & Hq).
    destruct (IH a s) as (new & Hs & Hin & Hb). rewrite Hm in Hb.
    rewrite Hs, filter_cons. destruct (truthy (strip q)) eqn:Hbl.
    + destruct Hq as [-> _]. rewrite decide_True by done.
      exists (Request (trimmed_history self) q :: new).
      rewrite <- app_assoc. simpl. rewrite Hin. repeat split; try done.
      constructor; [|done]. simpl. intros Hpos.
      rewrite (length_trimmed_history self Hpos). lia.
    + destruct Hq as [-> _]. rewrite decide_False by done. by exists new.
Qed.

(** X3. A conversation sends the completion service exactly one request per
    non-blank question, in the order asked, each with its question as [input];
    blank questions send none, and a failed call is not tried again. *)
Theorem ask_each_one_request_per_question (self : FinSightAgent)
    (served : list request) (questions : list str) :
  exists new,
    (ask_each self served questions).2 = served ++ new /\
    map req_input new = filter (fun q => truthy (strip q) = true) questions.
Proof.
  destruct (ask_each_requests self served questions) as (new & H1 & H2 & _).
  by exists new.
Qed.

Lemma trimmed_history_nil (c : Runnable) (m : Z) : trimmed_history (Build_Agent c [] m) = [].
Proof.
  unfold trimmed_history, slice_from. cbn.
  destruct (_ >? _); [apply drop_nil|reflexivity].
Qed.

(** X4. [clear_history] empties the history and changes nothing else;
    clearing twice is clearing once.  The next question is sent with no
    prior message, and after its reply the history is that one turn. *)
Theorem clear_history_starts_over (self : FinSightAgent) (served : list request)
    (question : str) :
  truthy (strip question) = true ->
  history (clear_history self) = [] /\
  clear_history (clear_history self) = clear_history self /\
  chain (clear_history self) = chain self /\
  max_turns (clear_history self) = max_turns self /\
  let '(res, self', served') := ask (clear_history self) served question in
  served' = served ++ [Request [] question] /\
  history self' = match res with
                  | Ok r => [HumanMessage question; AIMessage r]
                  | Raise _ => []
                  end.
Proof.
  intros Hq. repeat split; try done.
  pose proof (ask_step (clear_history self) served question) as Hstep.
  destruct (ask (clear_history self) served question) as [[res a] s].
  destruct Hstep as (_ & _ & Hs). rewrite Hq in Hs. destruct Hs as [-> ->].
  unfold clear_history. rewrite trimmed_history_nil. split; [done|].
  by destruct res.
Qed.

Lemma clear_history_starts_over_witness :
  truthy (strip (lit "hi")) = true /\
  history (clear_history (Build_Agent always_ok (messages_of_turns [(lit "a", lit "b")]) 10)) = [] /\
  (ask (clear_history (Build_Agent always_ok (messages_of_turns [(lit "a", lit "b")]) 10))
       [] (lit "hi")).2 = [Request [] (lit "hi")].
Proof.
  split; [reflexivity|].
  pose proof (clear_history_starts_over
                (Build_Agent always_ok (messages_of_turns [(lit "a", lit "b")]) 10)
                [] (lit "hi") eq_refl) as (H1 & _ & _ & _ & H5).
  split; [exact H1|].
  destruct (ask _ _ _) as [[res a] s]. exact (proj1 H5).
Defined.

(** X5. Without a [GROQ_API_KEY], or with an empty one, [build_agent] raises
    [ValueError] before it calls the libraries.  With a key it returns what
    they build: their error if they reject the model or the prompt, else an
    agent on their chain, with no history and the window of ten turns, so
    that in any conversation with it no request carries more than twenty
    prior messages. *)
Theorem build_agent_window (environ : gmap string string)
    (compile : string -> string -> string -> result Runnable) (context_summary : string) :
  (environ !! "GROQ_API_KEY"%string = None \/
   environ !! "GROQ_API_KEY"%string = Some ""%string ->
   build_agent environ compile context_summary = Raise "ValueError"%string) /\
  (forall api_key, environ !! "GROQ_API_KEY"%string = Some api_key -> api_key <> ""%string ->
     build_agent environ compile context_summary
     = match compile GROQ_MODEL api_key (system_prompt context_summary) with
       | Ok chain => Ok (Build_Agent chain [] 10)
       | Raise e => Raise e
       end) /\
  forall a, build_agent environ compile context_summary = Ok a ->
    history a = [] /\ max_turns a = 10 /\
    forall served questions,
      exists new,
        (ask_each a served questions).2 = served ++ new /\
        Forall (fun r => (length (req_history r) <= 20)%nat) new.
Proof.
  unfold build_agent. split; [|split].
  - by intros [->| ->].
  - intros api_key -> Hk. destruct api_key as [|c k]; [done|].
    by destruct (compile _ _ _).
  - intros a Ha.
    destruct (environ !! "GROQ_API_KEY"%string) as [[|c k]|]; try done.
    destruct (compile _ _ _) as [ch|e]; [|done].
    injection Ha as <-. split; [done|]. split; [done|].
    intros served questions.
    destruct (ask_each_requests (Build_Agent ch [] MEMORY_TURNS) served questions)
      as (new & H1 & _ & H3).
    exists new. split; [done|].
    eapply Forall_impl; [exact H3|]. simpl. intros r Hr.
    specialize (Hr eq_refl). unfold MEMORY_TURNS in Hr. lia.
Qed.

(** A data summary the libraries reject, here the template with a brace
    that is never closed, makes [build_agent] fail although the key is set. *)
Example build_agent_rejected_prompt :
  build_agent {[ "GROQ_API_KEY"%string := "k"%string ]}
    (fun _ _ _ => Raise "ValueError"%string) "Top merchant: {Acme"%string
  = Raise "ValueError"%string.
Proof. reflexivity. Qed.

End Conversations.

(** ** More on categorize *)

Section CategorizeMore.
Import Py Categorizer Tables.
Local Open Scope string_scope.

Lemma categorize_no_category (h : heap) (df : loc) (fr : DataFrame) :
  h !! df = Some fr -> has_column "category" fr = false ->
  categorize h df = Raise "ValueError".
Proof.
  intros Hdf Hc. unfold categorize, deref, _validate_input, mbind, result_bind.
  rewrite Hdf. simpl. by rewrite Hc.
Qed.

(** X6. [categorize] raises exactly when the frame has no [category]
    column, and what it raises is a [ValueError]. *)
Theorem categorize_raises_iff_no_category (h : heap) (df : loc) (fr : DataFrame) :
  h !! df = Some fr ->
  (forall e, categorize h df = Raise e <->
             e = "ValueError" /\ has_column "category" fr = false).
Proof.
  intros Hdf e. destruct (has_column "category" fr) eqn:Hc.
  - destruct (categorize_ok h df fr Hdf Hc) as (raw & _ & ->).
    split; [done|]. by intros [_ ?].
  - rewrite (categorize_no_category h df fr Hdf Hc). split.
    + by intros [= <-].
    + by intros [-> _].
Qed.

Lemma categorize_raises_iff_no_category_witness :
  categorize {[1%positive := Frame [("merchant", [Str "Rau-Robel"])]]} 1%positive
    = Raise "ValueError" <->
  "ValueError" = "ValueError" /\
  has_column "category" (Frame [("merchant", [Str "Rau-Robel"])]) = false.
Proof.
  apply (categorize_raises_iff_no_category
           {[1%positive := Frame [("merchant", [Str "Rau-Robel"])]]} 1%positive
           (Frame [("merchant", [Str "Rau-Robel"])])).
  reflexivity.
Defined.

Lemma assign_column_twice name col cols :
  assign_column name col (assign_column name col cols) = assign_column name col cols.
Proof.
  induction cols as [|[n c] cols IH]; simpl.
  - by rewrite String.eqb_refl.
  - destruct (String.eqb n name) eqn:E; simpl; rewrite E; [done|]. by rewrite IH.
Qed.

Lemma has_column_assign name name' col cols :
  existsb (String.eqb name') (map fst cols) = true ->
  existsb (String.eqb name') (map fst (assign_column name col cols)) = true.
Proof.
  induction cols as [|[n c] cols IH]; simpl; [done|].
  destruct (String.eqb n name); simpl; [done|].
  destruct (String.eqb name' n); simpl; [done|]. apply IH.
Qed.

(** X7. Categorizing a categorized frame gives a third object with the
    very columns of the second: the label column is computed again from the
    same [category] column.  Both earlier frames stay as they were. *)
Theorem categorize_twice (h : heap) (df : loc) (fr : DataFrame) :
  h !! df = Some fr ->
  has_column "category" fr = true ->
  exists h1 df1 fr1 h2 df2,
    categorize h df = Ok (h1, df1) /\
    h1 !! df1 = Some fr1 /\
    categorize h1 df1 = Ok (h2, df2) /\
    df2 <> df1 /\ df2 <> df /\
    h2 !! df2 = Some fr1 /\
    h2 !! df1 = Some fr1 /\
    h2 !! df = Some fr.
Proof.
  intros Hdf Hcat.
  destruct (categorize_ok h df fr Hdf Hcat) as (raw & Hraw & Hc1).
  set (mapped := fillna (Str "Miscellaneous") (series_map CATEGORY_MAP raw)) in *.
  set (fr1 := setitem "spending_category" mapped fr) in *.
  set (df1 := fresh (dom h)) in *.
  set (h1 := <[df1 := fr1]> (<[df1 := fr]> h)) in *.
  assert (Hfresh : h !! df1 = None) by apply not_elem_of_dom, is_fresh.
  assert (Hne : df1 <> df) by congruence.
  assert (H1 : h1 !! df1 = Some fr1) by apply lookup_insert_eq.
  assert (Hcat1 : has_column "category" fr1 = true).
  { unfold has_column, fr1, setitem. cbn [columns].
    apply has_column_assign. exact Hcat. }
  destruct (categorize_ok h1 df1 fr1 H1 Hcat1) as (raw1 & Hraw1 & Hc2).
  assert (raw1 = raw) as ->.
  { unfold fr1, setitem in Hraw1. cbn [columns] in Hraw1.
    rewrite lookup_assign_ne in Hraw1 by done. congruence. }
  assert (Hfresh1 : h1 !! fresh (dom h1) = None) by apply not_elem_of_dom, is_fresh.
  assert (Hne1 : fresh (dom h1) <> df1) by congruence.
  assert (Hne2 : fresh (dom h1) <> df).
  { intros E. rewrite E in Hfresh1. unfold h1 in Hfresh1.
    rewrite !lookup_insert_ne in Hfresh1 by done. congruence. }
  eexists h1, df1, fr1, _, _. split; [exact Hc1|]. split; [exact H1|].
  split; [exact Hc2|]. split; [exact Hne1|]. split; [exact Hne2|].
  fold mapped. split; [|split].
  - rewrite lookup_insert_eq. f_equal. unfold fr1, setitem. cbn [columns].
    by rewrite assign_column_twice.
  - by rewrite !lookup_insert_ne.
  - rewrite !lookup_insert_ne by done. unfold h1. by rewrite !lookup_insert_ne.
Qed.

Lemma categorize_twice_witness :
  exists h1 df1 fr1 h2 df2,
    categorize {[1%positive := loaded_frame]} 1%positive = Ok (h1, df1) /\
    h1 !! df1 = Some fr1 /\
    categorize h1 df1 = Ok (h2, df2) /\
    df2 <> df1 /\ df2 <> 1%positive /\
    h2 !! df2 = Some fr1 /\
    h2 !! df1 = Some fr1 /\
    h2 !! 1%positive = Some loaded_frame.
Proof.
  apply (categorize_twice {[1%positive := loaded_frame]} 1%positive loaded_frame);
    reflexivity.
Defined.

Lemma CATEGORY_MAP_in_order (raw label : string) :
  CATEGORY_MAP !! raw = Some label -> label ∈ CATEGORY_ORDER.
Proof.
  intros H. apply elem_of_list_to_map_2 in H.
  unfold CATEGORY_ORDER.
  repeat (apply elem_of_cons in H as [[= _ ->]|H];
          [repeat first [by left | right]|]).
  by apply elem_of_nil in H.
Qed.

Lemma CATEGORY_ORDER_has_colours (label : string) :
  label ∈ CATEGORY_ORDER -> is_Some (CATEGORY_COLORS !! label).
Proof.
  intros H. unfold CATEGORY_ORDER in H.
  repeat (apply elem_of_cons in H as [->|H]; [by eexists|]).
  by apply elem_of_nil in H.
Qed.

(** X8. Every cell [categorize] writes is one of the seven labels of
    [CATEGORY_ORDER], and [CATEGORY_COLORS] has a colour for it. *)
Theorem categorize_labels_have_colours (h : heap) (df : loc) (fr : DataFrame) :
  h !! df = Some fr ->
  has_column "category" fr = true ->
  exists h' df' fr' out,
    categorize h df = Ok (h', df') /\
    h' !! df' = Some fr' /\
    getitem fr' "spending_category" = Ok out /\
    Forall (fun c => exists label,
              c = Str label /\ label ∈ CATEGORY_ORDER /\
              is_Some (CATEGORY_COLORS !! label)) out.
Proof.
  intros Hdf Hcat. destruct (categorize_ok h df fr Hdf Hcat) as (raw & Hraw & Hc).
  eexists _, _, _, _. split; [exact Hc|]. split; [apply lookup_insert_eq|].
  split; [unfold getitem, setitem; cbn [columns]; by rewrite lookup_assign_eq|].
  apply Forall_lookup_2. intros i c Hi.
  assert (exists c0, raw !! i = Some c0) as [c0 Hc0].
  { apply lookup_lt_is_Some. apply lookup_lt_Some in Hi.
    unfold fillna, series_map in Hi. by rewrite !length_map in Hi. }
  pose proof (eq_trans (eq_sym Hi) (mapped_cell CATEGORY_MAP raw i c0 Hc0)) as Heq.
  injection Heq as ->.
  assert (Hmisc : "Miscellaneous" ∈ CATEGORY_ORDER)
    by (unfold CATEGORY_ORDER; repeat first [by left | right]).
  destruct c0 as [s| |].
  - destruct (CATEGORY_MAP !! s) as [v|] eqn:Hv; simpl.
    + exists v. pose proof (CATEGORY_MAP_in_order s v Hv).
      auto using CATEGORY_ORDER_has_colours.
    + exists "Miscellaneous". auto using CATEGORY_ORDER_has_colours.
  - exists "Miscellaneous". auto using CATEGORY_ORDER_has_colours.
  - exists "Miscellaneous". auto using CATEGORY_ORDER_has_colours.
Qed.

Lemma categorize_labels_have_colours_witness :
  exists h' df' fr' out,
    categorize {[1%positive := loaded_frame]} 1%positive = Ok (h', df') /\
    h' !! df' = Some fr' /\
    getitem fr' "spending_category" = Ok out /\
    Forall (fun c => exists label,
              c = Str label /\ label ∈ CATEGORY_ORDER /\
              is_Some (CATEGORY_COLORS !! label)) out.
Proof.
  apply (categorize_labels_have_colours {[1%positive := loaded_frame]} 1%positive
           loaded_frame); reflexivity.
Defined.

End CategorizeMore.

(** ** More on build_context_summary: the overview and the three tables *)

Section GroupCounts.
Import Py Summary.
Context {A : Type} {HA : Arith A}.
Context {K : Type} `{StrictTotal K} `{EqDecision K}.

Lemma count_bump (f : K -> Z) (k0 : K) (ks : list K) :
  NoDup ks -> k0 ∈ ks ->
  foldr Z.add 0 (map (fun k => if decide (k0 = k) then 1 + f k else f k) ks)
  = 1 + foldr Z.add 0 (map f ks).
Proof.
  induction 1 as [|k ks Hk Hnd IH]; intros Hin; [by apply elem_of_nil in Hin|].
  simpl. destruct (decide (k0 = k)) as [->|Hne].
  - assert (map (fun k' => if decide (k = k') then 1 + f k' else f k') ks = map f ks) as ->.
    { apply map_ext_in. intros k' Hk'%list_elem_of_In.
      destruct (decide (k = k')) as [->|]; done. }
    lia.
  - apply elem_of_cons in Hin as [?|Hin]; [done|]. rewrite (IH Hin). lia.
Qed.

(** The sizes of the groups add up to the number of rows. *)
Lemma group_counts_total (key : row A -> K) (df : list (row A)) (ks : list K) :
  NoDup ks -> (forall r, r ∈ df -> key r ∈ ks) ->
  foldr Z.add 0
    (map (fun k => Z.of_nat (length (filter (fun r => key r = k) df))) ks)
  = Z.of_nat (length df).
Proof.
  intros Hnd. induction df as [|r df IH]; intros Hks.
  - clear Hnd Hks. induction ks as [|k ks IHks]; simpl in *; [done|]. by rewrite IHks.
  - change (length (r :: df)) with (S (length df)).
    rewrite Nat2Z.inj_succ, <- Z.add_1_l, <- IH by (intros r' Hr'; apply Hks; by right).
    rewrite <- (count_bump _ (key r) ks Hnd) by (apply Hks; left).
    f_equal. apply map_ext. intros k. rewrite filter_cons.
    destruct (decide (key r = k)); [|done]. simpl. lia.
Qed.

Lemma sum_count_by_counts (key : row A -> K) (df : list (row A)) :
  fold_left Z.add (map snd (sum_count_by key df)) 0 = Z.of_nat (length df).
Proof.
  rewrite fold_left_Zadd, Z.add_0_l. unfold sum_count_by, groupby.
  rewrite !map_map. simpl. apply group_counts_total.
  - apply ascending_NoDup, group_keys_ascending.
  - intros r Hr. apply elem_of_group_keys, list_elem_of_In, in_map, list_elem_of_In, Hr.
Qed.

Lemma sum_count_by_labels (key : row A -> K) (df : list (row A)) :
  map (fun g => fst (fst g)) (sum_count_by key df) = group_keys (map key df).
Proof.
  unfold sum_count_by, groupby. rewrite !map_map. simpl. apply map_id.
Qed.

Lemma sum_by_labels (key : row A -> K) (df : list (row A)) :
  map fst (sum_by key df) = group_keys (map key df).
Proof. rewrite sum_by_eq, map_map. simpl. apply map_id. Qed.

Lemma elem_of_group_keys_rows (key : row A -> K) (df : list (row A)) (k : K) :
  k ∈ group_keys (map key df) <-> exists r, r ∈ df /\ key r = k.
Proof.
  rewrite elem_of_group_keys, list_elem_of_In, in_map_iff.
  split; intros (r & H1 & H2); exists r.
  - split; [by apply list_elem_of_In|done].
  - split; [done|by apply list_elem_of_In].
Qed.

End GroupCounts.

Section Overview.
Import Py Summary.
Context {A : Type} {HA : Arith A} {HS : Sorter A}.

(** Every value of the summary of a frame with at least one row. *)
Lemma build_context_summary_fields (df : list (row A)) :
  df <> [] ->
  exists s,
    build_context_summary df = Ok s /\
    ts_min (map datetime df) = Some (date_min s) /\
    ts_max (map datetime df) = Some (date_max s) /\
    total_txns s = Z.of_nat (length df) /\
    max_txn s = series_max (map amount df) /\
    fraud_count s = fold_left Z.add (map is_fraud df) 0 /\
    cat_lines s =
      map (fun r => (fst (fst r), snd (fst r),
                     div (mul (of_int 100) (snd (fst r))) (series_sum (map amount df)),
                     snd r))
          (sort_values_desc (fun r => snd (fst r)) (sum_count_by spending_category df)) /\
    merch_lines s =
      imap (fun i m => (Z.of_nat i + 1, fst m, snd m))
           (take 10 (sort_values_desc snd (sum_by merchant df))) /\
    monthly_lines s =
      map (fun m => (snd (fst m), snd m))
          (tail 6 (stable_sort_asc (fun m => (fst (fst (fst m)), snd (fst (fst m))))
                     (sum_by (fun r => (year r, month r, month_name r)) df))).
Proof.
  intros Hdf.
  destruct (idxmax_ok (sum_by day_of_week df)) as [pd Hpd]; [by apply sum_by_nonempty|].
  destruct (idxmax_ok (sum_by hour df)) as [ph Hph]; [by apply sum_by_nonempty|].
  unfold build_context_summary. rewrite Hpd, Hph.
  destruct df as [|r df]; [done|]. cbn [map ts_min ts_max strftime mbind result_bind bind].
  unfold true_div.
  destruct (Z.eqb_spec (Z.of_nat (length (r :: df))) 0) as [Hz|_]; [simpl in Hz; lia|].
  cbn [mbind result_bind bind]. eexists. split; [reflexivity|]. by cbn.
Qed.

(** X14. The date range of the overview is attained and bounds every row:
    both ends are the [datetime] of a row, and no row lies outside them. *)
Theorem date_range_bounds_every_row (df : list (row A)) :
  df <> [] ->
  exists s,
    build_context_summary df = Ok s /\
    (exists r, r ∈ df /\ datetime r = date_min s) /\
    (exists r, r ∈ df /\ datetime r = date_max s) /\
    forall r, r ∈ df -> date_min s <= datetime r <= date_max s.
Proof.
  intros Hdf.
  destruct (build_context_summary_fields df Hdf) as (s & Hs & Hmin & Hmax & _).
  exists s. split; [done|]. destruct df as [|r0 df]; [done|].
  simpl in Hmin, Hmax. injection Hmin as Hmin. injection Hmax as Hmax.
  destruct (fold_min_spec (datetime r0) (map datetime df)) as [Hin1 Hall1].
  destruct (fold_max_spec (datetime r0) (map datetime df)) as [Hin2 Hall2].
  rewrite Hmin in Hin1, Hall1. rewrite Hmax in Hin2, Hall2.
  change (datetime r0 :: map datetime df) with (map datetime (r0 :: df)) in *.
  assert (Hmem : forall z, z ∈ map datetime (r0 :: df) ->
                           exists r, r ∈ r0 :: df /\ datetime r = z).
  { intros z Hz. apply list_elem_of_In, in_map_iff in Hz as (r & Hr & Hin).
    exists r. split; [by apply list_elem_of_In|done]. }
  split; [by apply Hmem|]. split; [by apply Hmem|].
  intros r Hr.
  assert (Hd : datetime r ∈ map datetime (r0 :: df))
    by (apply list_elem_of_In, in_map, list_elem_of_In, Hr).
  pose proof (proj1 (Forall_forall _ _) Hall1 _ Hd).
  pose proof (proj1 (Forall_forall _ _) Hall2 _ Hd). simpl in *. lia.
Qed.

(** X16. When every fraud flag is 0 or 1, the fraud count of the overview
    is the number of flagged rows, and it lies between zero and the number
    of transactions. *)
Theorem fraud_count_counts_flags (df : list (row A)) :
  df <> [] ->
  (forall r, r ∈ df -> is_fraud r = 0 \/ is_fraud r = 1) ->
  exists s,
    build_context_summary df = Ok s /\
    fraud_count s = Z.of_nat (length (filter (fun r => is_fraud r = 1) df)) /\
    0 <= fraud_count s <= total_txns s.
Proof.
  intros Hdf Hflags.
  destruct (build_context_summary_fields df Hdf) as (s & Hs & _ & _ & Ht & _ & Hf & _).
  exists s. split; [done|]. rewrite Hf, Ht, fold_left_Zadd, Z.add_0_l. clear Hs Ht Hf Hdf.
  assert (Heq : foldr Z.add 0 (map is_fraud df)
                = Z.of_nat (length (filter (fun r => is_fraud r = 1) df))).
  { induction df as [|r df IH]; [done|]. simpl. rewrite filter_cons.
    rewrite IH by (intros r' Hr'; apply Hflags; by right).
    destruct (Hflags r) as [Hr|Hr]; [left|..]; rewrite Hr.
    - by rewrite decide_False.
    - rewrite decide_True by done. simpl. lia. }
  rewrite Heq. split; [done|].
  pose proof (length_filter (fun r => is_fraud r = 1) df). lia.
Qed.

End Overview.

Section LargestAmount.
Import Py Summary.
Context {A : Type} {HA : Arith A} {HC : Comparable A} {HW : WeakOrder A} {HS : Sorter A}.

(** X15. When no amount is a missing value, the largest transaction of the
    overview is the amount of a row, and no row has a larger amount. *)
Theorem max_txn_is_largest (df : list (row A)) :
  df <> [] ->
  (forall r, r ∈ df -> comparable (amount r) = true) ->
  exists s m,
    build_context_summary df = Ok s /\
    max_txn s = Some m /\
    (exists r, r ∈ df /\ amount r = m) /\
    forall r, r ∈ df -> less m (amount r) = false.
Proof.
  intros Hdf Hc.
  destruct (build_context_summary_fields df Hdf) as (s & Hs & _ & _ & _ & Hm & _).
  destruct df as [|r0 df]; [done|]. simpl in Hm.
  destruct (series_max_step_in (amount r0) (map amount df)) as [Hin Hall].
  { change (amount r0 :: map amount df) with (map amount (r0 :: df)).
    apply Forall_forall. intros a (r & <- & Hr)%list_elem_of_In%in_map_iff.
    by apply Hc, list_elem_of_In. }
  simpl in Hin, Hall. eexists s, _. split; [done|]. split; [exact Hm|].
  change (amount r0 :: map amount df) with (map amount (r0 :: df)) in *. split.
  - apply list_elem_of_In, in_map_iff in Hin as (r & Hr & Hin).
    exists r. split; [by apply list_elem_of_In|done].
  - intros r Hr. apply (proj1 (Forall_forall _ _) Hall).
    apply list_elem_of_In, in_map, list_elem_of_In, Hr.
Qed.

End LargestAmount.

Section SummaryTables.
Import Py Summary Categorizer Tables.
Context {A : Type} {HA : Arith A} {HS : Sorter A} {HSS : SorterSpec A}.

Lemma take_NoDup {X} (n : nat) (l : list X) : NoDup l -> NoDup (take n l).
Proof. intros Hl. eapply sublist_NoDup; [exact Hl|apply sublist_take]. Qed.

Lemma cat_lines_names (df : list (row A)) (s : summary A) :
  cat_lines s =
    map (fun r => (fst (fst r), snd (fst r),
                   div (mul (of_int 100) (snd (fst r))) (series_sum (map amount df)),
                   snd r))
        (sort_values_desc (fun r => snd (fst r)) (sum_count_by spending_category df)) ->
  map cat_name (cat_lines s) ≡ₚ group_keys (map spending_category df) /\
  map snd (cat_lines s) ≡ₚ map snd (sum_count_by spending_category df).
Proof.
  intros ->. rewrite !map_map. unfold cat_name. simpl. split.
  - rewrite <- sum_count_by_labels. apply Permutation_map, sort_perm.
  - apply Permutation_map, sort_perm.
Qed.

(** X11. The category section has exactly one row for each category that
    occurs in the frame, and the counts of its rows add up to the number of
    transactions: no row of the frame is left out or counted twice. *)
Theorem category_counts_add_up (df : list (row A)) :
  df <> [] ->
  exists s,
    build_context_summary df = Ok s /\
    NoDup (map cat_name (cat_lines s)) /\
    (forall c, c ∈ map cat_name (cat_lines s) <->
               exists r, r ∈ df /\ spending_category r = c) /\
    fold_left Z.add (map snd (cat_lines s)) 0 = total_txns s /\
    total_txns s = Z.of_nat (length df).
Proof.
  intros Hdf.
  destruct (build_context_summary_fields df Hdf)
    as (s & Hs & _ & _ & Ht & _ & _ & Hc & _).
  destruct (cat_lines_names df s Hc) as [Hn Hk].
  exists s. split; [done|]. split; [|split; [|split; [|done]]].
  - rewrite Hn. apply ascending_NoDup, group_keys_ascending.
  - intros c. rewrite Hn. apply elem_of_group_keys_rows.
  - rewrite Ht, (fold_add_perm _ _ 0 Hk). apply sum_count_by_counts.
Qed.

(** X17. On a frame whose categories are labels of [CATEGORY_ORDER], as
    [categorize] writes them, the category section has at most seven rows. *)
Theorem at_most_seven_categories (df : list (row A)) :
  df <> [] ->
  (forall r, r ∈ df -> spending_category r ∈ CATEGORY_ORDER) ->
  exists s,
    build_context_summary df = Ok s /\ (length (cat_lines s) <= 7)%nat.
Proof.
  intros Hdf Hcat.
  destruct (build_context_summary_fields df Hdf)
    as (s & Hs & _ & _ & _ & _ & _ & Hc & _).
  destruct (cat_lines_names df s Hc) as [Hn _].
  exists s. split; [done|].
  rewrite <- (length_map cat_name), (Permutation_length Hn).
  change 7%nat with (length CATEGORY_ORDER).
  apply submseteq_length, NoDup_submseteq.
  - apply ascending_NoDup, group_keys_ascending.
  - intros c (r & Hr & <-)%elem_of_group_keys_rows. by apply Hcat.
Qed.

(** X12. The merchant section has at most ten rows, one per merchant and
    ten exactly when the frame has ten merchants or more; its rows are
    numbered 1, 2, 3, ... and each names a merchant of the frame, none
    twice. *)
Theorem merchant_section_top_ten (df : list (row A)) :
  df <> [] ->
  exists s,
    build_context_summary df = Ok s /\
    length (merch_lines s) = Nat.min 10 (length (group_keys (map merchant df))) /\
    (forall i line, merch_lines s !! i = Some line ->
                    fst (fst line) = Z.of_nat i + 1) /\
    NoDup (map merch_name (merch_lines s)) /\
    (forall m, m ∈ map merch_name (merch_lines s) ->
               exists r, r ∈ df /\ merchant r = m).
Proof.
  intros Hdf.
  destruct (build_context_summary_fields df Hdf)
    as (s & Hs & _ & _ & _ & _ & _ & _ & Hm & _).
  exists s. split; [done|]. rewrite Hm.
  set (sorted := sort_values_desc snd (sum_by merchant df)).
  assert (Hp : map fst sorted ≡ₚ group_keys (map merchant df)).
  { rewrite <- sum_by_labels. apply Permutation_map, sort_perm. }
  assert (Hnames : map merch_name
                     (imap (fun i m => (Z.of_nat i + 1, fst m, snd m)) (take 10 sorted))
                   = take 10 (map fst sorted)).
  { rewrite <- fmap_take. generalize (take 10 sorted). intros l.
    apply list_eq. intros i. change (map merch_name ?x) with (merch_name <$> x).
    change (map fst l) with (fst <$> l).
    rewrite !list_lookup_fmap, list_lookup_imap. by destruct (l !! i). }
  split; [|split; [|split]].
  - rewrite length_imap, length_take, <- (length_map fst sorted).
    by rewrite (Permutation_length Hp).
  - intros i line. rewrite list_lookup_imap. destruct (take 10 sorted !! i); [|done].
    by intros [= <-].
  - rewrite Hnames. apply (take_NoDup 10 (map fst sorted)).
    rewrite Hp. apply ascending_NoDup, group_keys_ascending.
  - intros m. rewrite Hnames. intros Hin%subseteq_take. rewrite Hp in Hin.
    by apply elem_of_group_keys_rows in Hin.
Qed.

End SummaryTables.

Section MonthlySection.
Import Py Summary.
Context {A : Type} {HA : Arith A} {HS : Sorter A}.

(** A stable sort leaves a list alone that is in order already. *)
Lemma stable_sort_asc_sorted {K R} `{Ord K} (key : R -> K) (l : list R) :
  StronglySorted (fun a b => less (key b) (key a) = false) l ->
  stable_sort_asc key l = l.
Proof.
  induction 1 as [|x l Hs IH Hx]; [done|].
  unfold stable_sort_asc in *. simpl. rewrite IH.
  destruct l as [|y l]; [done|]. simpl.
  apply Forall_cons in Hx as [Hy _]. by rewrite Hy.
Qed.

Lemma StronglySorted_drop {X} (R : X -> X -> Prop) (n : nat) (l : list X) :
  StronglySorted R l -> StronglySorted R (drop n l).
Proof.
  intros Hl. rewrite <- (take_drop n l) in Hl. by apply StronglySorted_app_1_r in Hl.
Qed.

(** The year and month of a row of the monthly table, in calendar order. *)
Lemma month_label_order (a b : Z * Z * string * A) :
  less (fst a) (fst b) = true ->
  less (fst (fst (fst b)), snd (fst (fst b))) (fst (fst (fst a)), snd (fst (fst a))) = false /\
  (fst (fst (fst a)) < fst (fst (fst b)) \/
   (fst (fst (fst a)) = fst (fst (fst b)) /\ snd (fst (fst a)) <= snd (fst (fst b)))).
Proof.
  destruct a as [[[ya ma] na] va], b as [[[yb mb] nb] vb].
  cbv [less pair_ord Z_ord fst snd].
  destruct (Z.ltb_spec ya yb), (Z.ltb_spec yb ya), (Z.ltb_spec ma mb),
    (Z.ltb_spec mb ma); simpl; intros Hl; try done; split; try done; lia.
Qed.

(** X13. The monthly section shows the last six rows of the table of months
    (all of them when there are fewer), and these are in calendar order:
    the groups come out by year and month, so the sort that follows changes
    nothing. *)
Theorem monthly_section_recent_six (df : list (row A)) :
  df <> [] ->
  exists s months,
    build_context_summary df = Ok s /\
    monthly_lines s = map (fun m => (snd (fst m), snd m)) months /\
    months `suffix_of` sum_by (fun r => (year r, month r, month_name r)) df /\
    length months
      = Nat.min 6 (length (sum_by (fun r => (year r, month r, month_name r)) df)) /\
    StronglySorted
      (fun a b => fst (fst (fst a)) < fst (fst (fst b)) \/
                  (fst (fst (fst a)) = fst (fst (fst b)) /\
                   snd (fst (fst a)) <= snd (fst (fst b))))
      months.
Proof.
  intros Hdf.
  destruct (build_context_summary_fields df Hdf)
    as (s & Hs & _ & _ & _ & _ & _ & _ & _ & Hm).
  pose proof (sum_by_ascending (fun r : row A => (year r, month r, month_name r)) df) as Hasc.
  set (t := sum_by (fun r : row A => (year r, month r, month_name r)) df) in *.
  rewrite (stable_sort_asc_sorted _ t) in Hm.
  - exists s, (tail 6 t). split; [done|]. split; [done|]. unfold tail.
    split; [apply suffix_drop|]. split; [rewrite length_drop; lia|].
    apply StronglySorted_drop.
    eapply StronglySorted_weaken; [|exact Hasc].
    intros a b Hab. by apply month_label_order.
  - eapply StronglySorted_weaken; [|exact Hasc].
    intros a b Hab. by apply month_label_order.
Qed.

End MonthlySection.

Section SummaryTable.
Import Py Summary Tables.
Context {A : Type} {HA : Arith A} {HS : Sorter A} {HSS : SorterSpec A} {HR : Rounding A}.

Lemma get_summary_columns (df : list (row A)) :
  map summary_category (get_summary df) ≡ₚ group_keys (map spending_category df) /\
  map summary_count (get_summary df) ≡ₚ map snd (sum_count_by spending_category df).
Proof.
  unfold get_summary, summary_category, summary_count, sum_count_by, groupby.
  rewrite !map_map. simpl. split.
  - etransitivity; [apply Permutation_map, sort_perm|].
    rewrite !map_map. simpl. by rewrite map_id.
  - etransitivity; [apply Permutation_map, sort_perm|]. by rewrite !map_map.
Qed.

(** X9. The summary table has exactly one row for each category that occurs
    in the frame, and its transaction counts add up to the number of rows of
    the frame.  On a frame without rows the table is empty and nothing is
    raised. *)
Theorem get_summary_counts (df : list (row A)) :
  NoDup (map summary_category (get_summary df)) /\
  (forall c, c ∈ map summary_category (get_summary df) <->
             exists r, r ∈ df /\ spending_category r = c) /\
  fold_left Z.add (map summary_count (get_summary df)) 0 = Z.of_nat (length df) /\
  (df = [] -> get_summary df = []).
Proof.
  destruct (get_summary_columns df) as [Hn Hc].
  split; [|split; [|split]].
  - rewrite Hn. apply ascending_NoDup, group_keys_ascending.
  - intros c. rewrite Hn. apply elem_of_group_keys_rows.
  - rewrite (fold_add_perm _ _ 0 Hc). apply sum_count_by_counts.
  - intros ->. unfold get_summary. simpl.
    by rewrite (proj1 (Permutation_nil_r _) (sort_perm _ _ [])).
Qed.

(** X10. When the sort orders rows by the sorted column alone, the summary
    table of the dashboard and the category section of the agent's context
    list the same categories with the same counts in the same order. *)
Theorem get_summary_matches_context {HN : SorterNatural A} (df : list (row A)) :
  df <> [] ->
  exists s,
    build_context_summary df = Ok s /\
    map (fun r => (summary_category r, summary_count r)) (get_summary df)
    = map (fun l => (cat_name l, snd l)) (cat_lines s).
Proof.
  intros Hdf.
  destruct (build_context_summary_fields df Hdf)
    as (s & Hs & _ & _ & _ & _ & _ & Hc & _).
  exists s. split; [done|]. rewrite Hc.
  unfold get_summary, sum_count_by, summary_category, summary_count, cat_name.
  rewrite !sort_natural, !map_map. simpl. done.
Qed.

End SummaryTable.

Section NaturalSort.
Import Py Summary Tables.

Lemma insert_desc_map {A R R'} `{Ord A} (f : R -> R') (key : R' -> A) (x : R) (l : list R) :
  insert_desc key (f x) (map f l) = map f (insert_desc (fun r => key (f r)) x l).
Proof.
  induction l as [|y l IH]; simpl; [done|].
  destruct (less (key (f x)) (key (f y))); simpl; [by rewrite IH|done].
Qed.

#[export] Instance stable_sorter_natural {A} `{Ord A} : @SorterNatural A _ (stable_sorter A).
Proof.
  intros R R' f key l. unfold sort_values_desc, stable_sorter, stable_sort_desc.
  induction l as [|x l IH]; simpl; [done|]. by rewrite IH, insert_desc_map.
Qed.

End NaturalSort.

(** ** Merchant names of the loader *)

Section MerchantNames.
Import Py Loader.

Lemma lstrip_drop (s : str) : exists k, lstrip s = drop k s.
Proof.
  induction s as [|c s [k IH]]; [by exists 0%nat|]. simpl.
  destruct (isspace c); [by exists (S k)|by exists 0%nat].
Qed.

Lemma lstrip_head (s : str) (c : N) (r : str) : lstrip s = c :: r -> isspace c = false.
Proof.
  induction s as [|c' s IH]; simpl; [done|].
  destruct (isspace c') eqn:Hc; [done|]. by intros [= <- _].
Qed.

(** [strip] keeps a stretch of the string between two cuts. *)
Lemma strip_take_drop (s : str) : exists k n, strip s = take n (drop k s).
Proof.
  unfold strip, rstrip. destruct (lstrip_drop s) as [k ->].
  destruct (lstrip_drop (rev (drop k s))) as [j ->].
  exists k, (length (drop k s) - j)%nat.
  by rewrite skipn_rev, rev_involutive.
Qed.

Lemma strip_first (s : str) (c : N) (r : str) : strip s = c :: r -> isspace c = false.
Proof.
  unfold strip, rstrip. destruct (lstrip_drop (rev (lstrip s))) as [j Hj].
  rewrite Hj, skipn_rev, rev_involutive.
  destruct (lstrip s) as [|c' u] eqn:Hu; [by rewrite take_nil|].
  destruct (length (c' :: u) - j)%nat; [done|]. simpl. intros [= <- _].
  by apply (lstrip_head s c' u).
Qed.

Lemma strip_last (s : str) (c : N) (r : str) : strip s = r ++ [c] -> isspace c = false.
Proof.
  unfold strip, rstrip. intros H. apply (f_equal (@rev N)) in H.
  rewrite rev_involutive, rev_unit in H. by apply lstrip_head in H.
Qed.

Lemma strip_id (s : str) :
  (forall c r, s = c :: r -> isspace c = false) ->
  (forall c r, s = r ++ [c] -> isspace c = false) ->
  strip s = s.
Proof.
  intros Hfirst Hlast. unfold strip, rstrip.
  assert (Hl : forall t : str, (forall c r, t = c :: r -> isspace c = false) -> lstrip t = t).
  { intros [|c t] Ht; [done|]. simpl. by rewrite (Ht c t eq_refl). }
  rewrite (Hl s Hfirst), Hl; [apply rev_involutive|].
  intros c r Hr. apply (Hlast c (rev r)).
  by rewrite <- (rev_involutive s), Hr.
Qed.

Lemma startswith_app (p s : str) : startswith (p ++ s) p = true.
Proof. induction p as [|c p IH]; simpl; [done|]. by rewrite N.eqb_refl, IH. Qed.

Lemma removeprefix_drop (s p : str) : exists k, removeprefix s p = drop k s.
Proof.
  unfold removeprefix. destruct (startswith s p); [by eexists|by exists 0%nat].
Qed.

(** X18. A cleaned merchant name neither begins nor ends with whitespace and
    is a stretch of the raw name.  A name that has no whitespace at its ends
    comes back as it is when the raw cell is ["fraud_"] followed by it. *)
Theorem clean_merchant_trimmed (raw : str) :
  (forall c r, clean_merchant raw = c :: r -> isspace c = false) /\
  (forall c r, clean_merchant raw = r ++ [c] -> isspace c = false) /\
  (exists before after, raw = before ++ clean_merchant raw ++ after) /\
  (forall name,
     raw = lit "fraud_" ++ name ->
     (forall c r, name = c :: r -> isspace c = false) ->
     (forall c r, name = r ++ [c] -> isspace c = false) ->
     clean_merchant raw = name).
Proof.
  unfold clean_merchant. split; [|split; [|split]].
  - intros c r. apply strip_first.
  - intros c r. apply strip_last.
  - destruct (removeprefix_drop raw (lit "fraud_")) as [j ->].
    destruct (strip_take_drop (drop j raw)) as (k & n & ->).
    exists (take j raw ++ take k (drop j raw)), (drop n (drop k (drop j raw))).
    by rewrite <- !app_assoc, !take_drop.
  - intros name -> Hfirst Hlast. unfold removeprefix.
    rewrite startswith_app, drop_app_length. by apply strip_id.
Qed.

End MerchantNames.

(** ** Setting the agent up from the frame *)

Section AgentFromFrame.
Import Py Agent AgentSetup Summary App.
Context {A : Type} {HA : Arith A} {HS : Sorter A}.

(** X19. Building the agent from a frame raises [ValueError], the one
    exception [app.py] catches around [get_agent], on a frame without rows
    and on a missing or empty [GROQ_API_KEY].  On a frame with rows and with
    a key, it returns what the libraries make of the system prompt of the
    frame's summary: an agent on their chain, or their error. *)
Theorem get_agent_failures (render : summary A -> string)
    (environ : gmap string string)
    (compile : string -> string -> string -> result Runnable)
    (df : list (row A)) :
  (df = [] \/ environ !! "GROQ_API_KEY"%string = None
           \/ environ !! "GROQ_API_KEY"%string = Some ""%string ->
   get_agent render environ compile df = Raise "ValueError"%string) /\
  (forall api_key,
     df <> [] -> environ !! "GROQ_API_KEY"%string = Some api_key -> api_key <> ""%string ->
     exists s, build_context_summary df = Ok s /\
       get_agent render environ compile df
       = match compile GROQ_MODEL api_key (system_prompt (render s)) with
         | Ok chain => Ok (Build_Agent chain [] 10)
         | Raise e => Raise e
         end).
Proof.
  unfold get_agent. split.
  - destruct df as [|r df]; [done|]. intros [?|Hk]; [done|].
    destruct (build_context_summary_fields (r :: df)) as (s & -> & _); [done|].
    cbn [mbind result_bind bind]. unfold build_agent. by destruct Hk as [-> | ->].
  - intros api_key Hdf Hk Hne.
    destruct (build_context_summary_fields df Hdf) as (s & Hs & _).
    exists s. split; [done|]. rewrite Hs. cbn [mbind result_bind bind].
    unfold build_agent. rewrite Hk. destruct api_key as [|c k]; [done|].
    by destruct (compile _ _ _).
Qed.

End AgentFromFrame.

(** ** The further properties on the frame in cents *)

Section MoreWitnesses.
Import Py Summary Categorizer Tables Loader.
Local Open Scope string_scope.

Lemma cents_frame_flags (r : row Z) :
  r ∈ cents_frame -> is_fraud r = 0 \/ is_fraud r = 1.
Proof.
  unfold cents_frame. intros Hr.
  repeat (apply elem_of_cons in Hr as [->|Hr]; [simpl; lia|]).
  by apply elem_of_nil in Hr.
Qed.

Lemma cents_frame_categories (r : row Z) :
  r ∈ cents_frame -> spending_category r ∈ CATEGORY_ORDER.
Proof.
  unfold cents_frame, CATEGORY_ORDER. intros Hr.
  repeat (apply elem_of_cons in Hr as [->|Hr]; [simpl; repeat first [by left | right]|]).
  by apply elem_of_nil in Hr.
Qed.

Lemma date_range_bounds_every_row_witness :
  cents_frame <> [] /\
  exists s,
    build_context_summary (HS := stable_sorter Z) cents_frame = Ok s /\
    (exists r, r ∈ cents_frame /\ datetime r = date_min s) /\
    (exists r, r ∈ cents_frame /\ datetime r = date_max s) /\
    forall r, r ∈ cents_frame -> date_min s <= datetime r <= date_max s.
Proof.
  split; [discriminate|].
  apply (date_range_bounds_every_row (HA := Z_arith) (HS := stable_sorter Z) cents_frame).
  discriminate.
Defined.

Lemma fraud_count_counts_flags_witness :
  cents_frame <> [] /\
  exists s,
    build_context_summary (HS := stable_sorter Z) cents_frame = Ok s /\
    fraud_count s = Z.of_nat (length (filter (fun r => is_fraud r = 1) cents_frame)) /\
    0 <= fraud_count s <= total_txns s.
Proof.
  split; [discriminate|].
  apply (fraud_count_counts_flags (HA := Z_arith) (HS := stable_sorter Z) cents_frame);
    [discriminate|apply cents_frame_flags].
Defined.

Lemma exact_frame_comparable (r : row PrimFloat.float) :
  r ∈ exact_frame -> comparable (amount r) = true.
Proof.
  unfold exact_frame. intros Hr.
  repeat (apply elem_of_cons in Hr as [->|Hr]; [vm_compute; reflexivity|]).
  by apply elem_of_nil in Hr.
Defined.

Lemma max_txn_is_largest_witness :
  exact_frame <> [] /\
  exists s m,
    build_context_summary (HS := stable_sorter PrimFloat.float) exact_frame = Ok s /\
    max_txn s = Some m /\
    (exists r, r ∈ exact_frame /\ amount r = m) /\
    forall r, r ∈ exact_frame -> less m (amount r) = false.
Proof.
  split; [discriminate|].
  apply (max_txn_is_largest (HA := float_arith) (HS := stable_sorter PrimFloat.float)
           exact_frame); [discriminate|exact exact_frame_comparable].
Defined.

Lemma category_counts_add_up_witness :
  cents_frame <> [] /\
  exists s,
    build_context_summary (HS := stable_sorter Z) cents_frame = Ok s /\
    NoDup (map cat_name (cat_lines s)) /\
    (forall c, c ∈ map cat_name (cat_lines s) <->
               exists r, r ∈ cents_frame /\ spending_category r = c) /\
    fold_left Z.add (map snd (cat_lines s)) 0 = total_txns s /\
    total_txns s = Z.of_nat (length cents_frame).
Proof.
  split; [discriminate|].
  apply (category_counts_add_up (HA := Z_arith) (HS := stable_sorter Z) cents_frame).
  discriminate.
Defined.

Lemma at_most_seven_categories_witness :
  cents_frame <> [] /\
  exists s,
    build_context_summary (HS := stable_sorter Z) cents_frame = Ok s /\
    (length (cat_lines s) <= 7)%nat.
Proof.
  split; [discriminate|].
  apply (at_most_seven_categories (HA := Z_arith) (HS := stable_sorter Z) cents_frame);
    [discriminate|apply cents_frame_categories].
Defined.

Lemma merchant_section_top_ten_witness :
  cents_frame <> [] /\
  exists s,
    build_context_summary (HS := stable_sorter Z) cents_frame = Ok s /\
    length (merch_lines s) = Nat.min 10 (length (group_keys (map merchant cents_frame))) /\
    (forall i line, merch_lines s !! i = Some line ->
                    fst (fst line) = Z.of_nat i + 1) /\
    NoDup (map merch_name (merch_lines s)) /\
    (forall m, m ∈ map merch_name (merch_lines s) ->
               exists r, r ∈ cents_frame /\ merchant r = m).
Proof.
  split; [discriminate|].
  apply (merchant_section_top_ten (HA := Z_arith) (HS := stable_sorter Z) cents_frame).
  discriminate.
Defined.

Lemma monthly_section_recent_six_witness :
  cents_frame <> [] /\
  exists s months,
    build_context_summary (HS := stable_sorter Z) cents_frame = Ok s /\
    monthly_lines s = map (fun m => (snd (fst m), snd m)) months /\
    months `suffix_of` sum_by (fun r => (year r, month r, month_name r)) cents_frame /\
    length months
      = Nat.min 6 (length (sum_by (fun r => (year r, month r, month_name r)) cents_frame)) /\
    StronglySorted
      (fun a b => fst (fst (fst a)) < fst (fst (fst b)) \/
                  (fst (fst (fst a)) = fst (fst (fst b)) /\
                   snd (fst (fst a)) <= snd (fst (fst b))))
      months.
Proof.
  split; [discriminate|].
  apply (monthly_section_recent_six (HA := Z_arith) (HS := stable_sorter Z) cents_frame).
  discriminate.
Defined.

Lemma get_summary_counts_witness :
  NoDup (map summary_category (get_summary (HS := stable_sorter Z) cents_frame)) /\
  (forall c, c ∈ map summary_category (get_summary (HS := stable_sorter Z) cents_frame) <->
             exists r, r ∈ cents_frame /\ spending_category r = c) /\
  fold_left Z.add (map summary_count (get_summary (HS := stable_sorter Z) cents_frame)) 0
    = Z.of_nat (length cents_frame) /\
  (cents_frame = [] -> get_summary (HS := stable_sorter Z) cents_frame = []).
Proof.
  exact (get_summary_counts (HA := Z_arith) (HS := stable_sorter Z) cents_frame).
Defined.

Lemma get_summary_matches_context_witness :
  cents_frame <> [] /\
  exists s,
    build_context_summary (HS := stable_sorter Z) cents_frame = Ok s /\
    map (fun r => (summary_category r, summary_count r))
        (get_summary (HS := stable_sorter Z) cents_frame)
    = map (fun l => (cat_name l, snd l)) (cat_lines s).
Proof.
  split; [discriminate|].
  apply (get_summary_matches_context (HA := Z_arith) (HS := stable_sorter Z) cents_frame).
  discriminate.
Defined.

Example get_summary_cents_frame :
  get_summary (HS := stable_sorter Z) cents_frame
  = [("Miscellaneous", 10000, 2, 5000); ("Shopping", 10000, 1, 10000)].
Proof. vm_compute. reflexivity. Qed.

Example clean_merchant_examples :
  clean_merchant (lit "fraud_Rau-Robel ") = lit "Rau-Robel" /\
  clean_merchant (lit " fraud_Rau-Robel") = lit "fraud_Rau-Robel" /\
  clean_merchant (lit "fraud_fraud_x") = lit "fraud_x".
Proof. repeat split; vm_compute; reflexivity. Qed.

End MoreWitnesses.
